(** * asincrono: the asynchronous Pixabay downloader of [src/main.py]

    A shallow embedding of the class [PixabayDownloaderAsync] and of the
    script's [main].  The Python code talks to three things outside the
    interpreter: the file system, standard output and the network.  The first
    two are components of an explicit [World] that every operation threads;
    the network is an oracle [Env] that says, for every request the program
    can issue, whether an answer arrives and which one.  Exceptions are
    values of [exn] carried by [result]; the code has no [try] statement, so
    an exception raised anywhere unwinds to the caller.

    The coroutine [descargar_imagen] is embedded as the state machine of its
    suspension points, and [asyncio.gather] as an event loop that resumes
    one task per turn, in the order given by a schedule. *)

From Stdlib Require Import Ascii.
From stdpp Require Import base option list strings pretty gmap sets.


(** ** Python values and exceptions *)

(** The exceptions the modelled code can see.  Nothing in [src/main.py]
    catches any of them, so only their identity matters. *)
Inductive exn : Type :=
  | ClientError          (* aiohttp.ClientError: DNS, TLS handshake, reset *)
  | TimeoutError         (* asyncio.TimeoutError *)
  | JSONDecodeError      (* respuesta.json(): body is not JSON *)
  | KeyError (key : string)
  | TypeError
  | SSLError             (* ssl.create_default_context *)
  | FileExistsError
  | FileNotFoundError
  | IsADirectoryError
  | NotADirectoryError
  | PermissionError
  | FileTooLargeError.   (* OSError(EFBIG) *)

Global Instance exn_eq_dec : EqDecision exn.
Proof. solve_decision. Defined.

Inductive result (A : Type) : Type :=
  | Ok (a : A)
  | Raise (e : exn).
Arguments Ok {A} a.
Arguments Raise {A} e.

Local Set Warnings "-register-all".

(** What [json.loads] produces.  A Python [dict] keeps one value per key;
    [JObj] lists the items in insertion order and [obj_lookup] reads the
    first one of a key. *)
Inductive json : Type :=
  | JNull
  | JBool (b : bool)
  | JInt (n : Z)
  | JFloat (repr : string)
  | JStr (s : string)
  | JArr (items : list json)
  | JObj (members : list (string * json)).

Fixpoint obj_lookup (k : string) (members : list (string * json)) : option json :=
  match members with
  | [] => None
  | (k', v) :: rest => if decide (k' = k) then Some v else obj_lookup k rest
  end.

(** [v[k]] for a string key [k]: only a [dict] can be subscripted with a
    string; a missing key is a [KeyError], everything else a [TypeError]. *)
Definition getitem (v : json) (k : string) : result json :=
  match v with
  | JObj members =>
      match obj_lookup k members with
      | Some x => Ok x
      | None => Raise (KeyError k)
      end
  | _ => Raise TypeError
  end.

Fixpoint chars (s : string) : list json :=
  match s with
  | EmptyString => []
  | String c rest => JStr (String c EmptyString) :: chars rest
  end.

(** [for x in v]: a list yields its items, a dict its keys, a string its
    characters; [None], booleans and numbers are not iterable. *)
Definition iter (v : json) : result (list json) :=
  match v with
  | JArr items => Ok items
  | JObj members => Ok (map (λ kv, JStr kv.1) members)
  | JStr s => Ok (chars s)
  | _ => Raise TypeError
  end.

(** ** The world: file system, standard output, network trace *)

Inductive net_event : Type :=
  | SessionOpened                             (* aiohttp.ClientSession(...) *)
  | HttpGet (url : json) (params : list (string * json)).  (* session.get(url, params=...) *)

Record World : Type := mkWorld {
  dirs : gset string;               (* existing directories *)
  files : gmap string (list Byte.byte);  (* regular files and their contents *)
  readonly : gset string;           (* paths the process may not create or open for writing *)
  fsize_limit : option nat;         (* RLIMIT_FSIZE; [None] is unlimited *)
  stdout : list string;             (* lines printed so far, oldest first *)
  net : list net_event              (* network actions so far, oldest first *)
}.

Definition set_dirs (d : gset string) (w : World) : World :=
  mkWorld d (files w) (readonly w) (fsize_limit w) (stdout w) (net w).
Definition set_files (f : gmap string (list Byte.byte)) (w : World) : World :=
  mkWorld (dirs w) f (readonly w) (fsize_limit w) (stdout w) (net w).
Definition emit (line : string) (w : World) : World :=
  mkWorld (dirs w) (files w) (readonly w) (fsize_limit w) (stdout w ++ [line]) (net w).
Definition record_net (ev : net_event) (w : World) : World :=
  mkWorld (dirs w) (files w) (readonly w) (fsize_limit w) (stdout w) (net w ++ [ev]).

(** ** The state-and-exception monad of the sequential code *)

Definition M (A : Type) : Type := World → result A * World.

Global Instance M_ret : MRet M := λ A a w, (Ok a, w).
Global Instance M_bind : MBind M := λ A B f m w,
  match m w with
  | (Ok a, w') => f a w'
  | (Raise e, w') => (Raise e, w')
  end.

Definition raise {A : Type} (e : exn) : M A := λ w, (Raise e, w).
Definition lift {A : Type} (r : result A) : M A := λ w, (r, w).
Definition print (line : string) : M unit := λ w, (Ok (), emit line w).
Definition trace (ev : net_event) : M unit := λ w, (Ok (), record_net ev w).

Fixpoint mapM {A B : Type} (f : A → M B) (l : list A) : M (list B) :=
  match l with
  | [] => mret []
  | x :: rest => y ← f x; ys ← mapM f rest; mret (y :: ys)
  end.

(** ** Paths ([posixpath]) *)

Definition slash : ascii := "/"%char.
Definition is_slash (c : ascii) : bool := bool_decide (c = slash).

Definition starts_with_slash (s : string) : bool :=
  match s with
  | String c _ => is_slash c
  | EmptyString => false
  end.

Fixpoint ends_with_slash (s : string) : bool :=
  match s with
  | EmptyString => false
  | String c EmptyString => is_slash c
  | String _ rest => ends_with_slash rest
  end.

(** [os.path.join(a, b)]: an absolute [b] replaces [a]; otherwise the two
    are glued with exactly one separator between them. *)
Definition os_path_join (a b : string) : string :=
  if starts_with_slash b then b
  else if bool_decide (a = "") || ends_with_slash a then a +:+ b
  else a +:+ "/" +:+ b.

Fixpoint lstrip_slashes (l : list ascii) : list ascii :=
  match l with
  | c :: rest => if is_slash c then lstrip_slashes rest else l
  | [] => []
  end.

Fixpoint drop_to_slash (l : list ascii) : list ascii :=
  match l with
  | c :: rest => if is_slash c then l else drop_to_slash rest
  | [] => []
  end.

(** [s.rstrip('/')], except that a path made of slashes only is the root. *)
Definition norm (p : string) : string :=
  match lstrip_slashes (reverse (String.list_ascii_of_string p)) with
  | [] => if bool_decide (p = "") then "" else "/"
  | l => String.string_of_list_ascii (reverse l)
  end.

(** [os.path.dirname(p)]: everything up to the last slash, without the
    trailing slashes unless nothing else is left. *)
Definition dirname (p : string) : string :=
  let head := drop_to_slash (reverse (String.list_ascii_of_string p)) in
  match lstrip_slashes head with
  | [] => String.string_of_list_ascii (reverse head)
  | l => String.string_of_list_ascii (reverse l)
  end.

(** ** The file system *)

Definition isdir (p : string) (w : World) : bool :=
  bool_decide (p ≠ "") && (bool_decide (norm p = "/") || bool_decide (norm p ∈ dirs w)).

Definition isfile (p : string) (w : World) : bool :=
  bool_decide (is_Some (files w !! p)).

Definition exists_path (p : string) (w : World) : bool := isdir p w || isfile p w.

(** Why an entry cannot be made at [p], as far as the directory above it
    goes.  A relative name without a slash lives in the working directory. *)
Definition parent_check (p : string) (w : World) : option exn :=
  let d := dirname p in
  if bool_decide (d = "") then None
  else if isdir d w then None
  else if isfile d w then Some NotADirectoryError
  else Some FileNotFoundError.

(** [open(ruta, 'wb')]: creates the file or truncates it. *)
Definition open_wb (ruta : string) : M unit := λ w,
  if bool_decide (ruta = "") then (Raise FileNotFoundError, w)
  else if isdir ruta w then (Raise IsADirectoryError, w)
  else match parent_check ruta w with
       | Some e => (Raise e, w)
       | None =>
           if bool_decide (ruta ∈ readonly w) then (Raise PermissionError, w)
           else (Ok (), set_files (<[ruta := []]> (files w)) w)
       end.

(** [archivo.write(contenido)] followed by the [close] of the [with]
    block: past the size limit only the bytes that fit reach the file. *)
Definition write (ruta : string) (contenido : list Byte.byte) : M unit := λ w,
  match fsize_limit w with
  | Some lim =>
      if bool_decide (lim < length contenido)
      then (Raise FileTooLargeError, set_files (<[ruta := take lim contenido]> (files w)) w)
      else (Ok (), set_files (<[ruta := contenido]> (files w)) w)
  | None => (Ok (), set_files (<[ruta := contenido]> (files w)) w)
  end.

(** [os.mkdir(p)]: the entry named by [p] (a trailing slash does not
    count) is made in a directory that must exist. *)
Definition mkdir (p : string) : M unit := λ w,
  if bool_decide (p = "") then (Raise FileNotFoundError, w)
  else if isdir p w || isfile (norm p) w then (Raise FileExistsError, w)
  else match parent_check (norm p) w with
       | Some e => (Raise e, w)
       | None =>
           if bool_decide (norm p ∈ readonly w) then (Raise PermissionError, w)
           else (Ok (), set_dirs ({[ norm p ]} ∪ dirs w) w)
       end.

(** [os.makedirs(name, exist_ok=exist_ok)], after CPython's [os.py]: when
    the directory above [name] is missing it is made first, by the same
    function, and a [FileExistsError] from there is passed over; then
    [name] itself is made, and with [exist_ok] a failure of this last
    [mkdir] is forgiven when [name] is a directory all the same.  The
    directory above is [dirname] of the path without its trailing slashes
    ([path.split], applied again when the tail is empty); paths are taken
    without [.] and [..] components.  Every recursive call is on a shorter
    path, so the length of [name] is fuel enough. *)
Fixpoint makedirs_fuel (fuel : nat) (name : string) (exist_ok : bool) : M unit := λ w,
  let head := dirname (norm name) in
  let above :=
    match fuel with
    | S n =>
        if bool_decide (head ≠ "") && negb (bool_decide (norm name = "/"))
           && negb (exists_path head w)
        then match makedirs_fuel n head exist_ok w with
             | (Raise FileExistsError, w') => (Ok (), w')
             | r => r
             end
        else (Ok (), w)
    | 0 => (Ok (), w)
    end in
  match above with
  | (Raise e, w') => (Raise e, w')
  | (Ok _, w') =>
      match mkdir name w' with
      | (Ok _, w'') => (Ok (), w'')
      | (Raise e, w'') =>
          if exist_ok && isdir name w'' then (Ok (), w'') else (Raise e, w'')
      end
  end.

Definition makedirs (name : string) (exist_ok : bool) : M unit :=
  makedirs_fuel (String.length name) name exist_ok.

(** ** The network *)

(** What comes back for one [session.get]: nothing at all (the awaited
    call raises: DNS, TLS, refused or reset connection, timeout), or a
    response with its status line and, behind it, what reading the body
    ([respuesta.json()], [respuesta.read()]) will give. *)
Inductive response (B : Type) : Type :=
  | NoResponse (e : exn)
  | Response (status : nat) (body : result B).
Arguments NoResponse {B} e.
Arguments Response {B} status body.

(** The outside of one run.  [media i url] answers the request of the
    download task at position [i]: two tasks that ask for the same URL
    make two requests and may get two answers. *)
Record Env : Type := mkEnv {
  ssl_create_default_context : result unit;   (* ssl.create_default_context(cafile=certifi.where()) *)
  api : string → list (string * json) → response json;
  media : nat → json → response (list Byte.byte)
}.

(** ** The class *)

Record PixabayDownloaderAsync : Type := mkDownloader {
  api_key : string;
  directorio_imagenes : string
}.

Definition __init__ (api_key directorio_imagenes : string) : M PixabayDownloaderAsync :=
  makedirs directorio_imagenes true;;
  mret (mkDownloader api_key directorio_imagenes).

Definition URL_BASE : string := "https://pixabay.com/api/".

Definition parametros (self : PixabayDownloaderAsync) (consulta : string) (cantidad : Z)
  : list (string * json) :=
  [("key", JStr (api_key self)); ("q", JStr consulta);
   ("image_type", JStr "photo"); ("per_page", JInt cantidad)].

Definition obtener_urls_imagenes (env : Env) (self : PixabayDownloaderAsync)
    (consulta : string) (cantidad : Z) : M (list json) :=
  lift (ssl_create_default_context env);;
  trace SessionOpened;;
  trace (HttpGet (JStr URL_BASE) (parametros self consulta cantidad));;
  match api env URL_BASE (parametros self consulta cantidad) with
  | NoResponse e => raise e
  | Response status body =>
      if bool_decide (status = 200) then
        datos ← lift body;
        hits ← lift (getitem datos "hits");
        imagenes ← lift (iter hits);
        mapM (λ imagen, lift (getitem imagen "largeImageURL")) imagenes
      else
        print ("Error en la solicitud a la API: " +:+ pretty status);;
        mret []
  end.

(** The coroutine run from its call to its end with nothing in between.
    [i] is not an argument of the Python method: it names the request for
    the oracle.  The shared [session] carries no state of the model. *)
Definition descargar_imagen (env : Env) (self : PixabayDownloaderAsync) (i : nat)
    (url : json) (nombre_archivo : string) : M unit :=
  trace (HttpGet url []);;
  match media env i url with
  | NoResponse e => raise e
  | Response status body =>
      if bool_decide (status = 200) then
        contenido ← lift body;
        let ruta := os_path_join (directorio_imagenes self) nombre_archivo in
        open_wb ruta;;
        write ruta contenido;;
        print ("Descarga completada: " +:+ nombre_archivo)
      else
        print ("Error descargando " +:+ nombre_archivo +:+ ": " +:+ pretty status)
  end.

(** ** The coroutine as a state machine *)

(** Where a [descargar_imagen] coroutine can be between two turns of the
    event loop: built but not started, suspended in [session.get], suspended
    in [respuesta.read()] (the response object in hand), or over. *)
Inductive estado : Type :=
  | Created
  | AwaitingResponse
  | AwaitingBody (body : result (list Byte.byte))
  | Returned
  | Raised (e : exn).

Record tarea : Type := mkTarea {
  t_url : json;
  t_nombre : string;
  t_estado : estado
}.

(** One turn of the loop given to task [i]: the coroutine runs from where
    it was suspended to its next [await], or to its end. *)
Definition resume (env : Env) (self : PixabayDownloaderAsync) (i : nat)
    (t : tarea) (w : World) : estado * World :=
  match t_estado t with
  | Created => (AwaitingResponse, record_net (HttpGet (t_url t) []) w)
  | AwaitingResponse =>
      match media env i (t_url t) with
      | NoResponse e => (Raised e, w)
      | Response status body =>
          if bool_decide (status = 200) then (AwaitingBody body, w)
          else (Returned,
                emit ("Error descargando " +:+ t_nombre t +:+ ": " +:+ pretty status) w)
      end
  | AwaitingBody body =>
      match body with
      | Raise e => (Raised e, w)
      | Ok contenido =>
          let ruta := os_path_join (directorio_imagenes self) (t_nombre t) in
          match (open_wb ruta;; write ruta contenido) w with
          | (Raise e, w') => (Raised e, w')
          | (Ok _, w') => (Returned, emit ("Descarga completada: " +:+ t_nombre t) w')
          end
      end
  | Returned => (Returned, w)
  | Raised e => (Raised e, w)
  end.

(** ** [asyncio.gather] *)

Definition turn (env : Env) (self : PixabayDownloaderAsync) (i : nat)
    (ts : list tarea) (w : World) : list tarea * World :=
  match ts !! i with
  | Some t =>
      let '(st, w') := resume env self i t w in
      (<[i := mkTarea (t_url t) (t_nombre t) st]> ts, w')
  | None => (ts, w)
  end.

Definition raised_at (ts : list tarea) (i : nat) : option exn :=
  match ts !! i with
  | Some t => match t_estado t with Raised e => Some e | _ => None end
  | None => None
  end.

(** The loop resumes the tasks in the order of [sched]: the schedule is
    the order in which requests are answered and bodies arrive.  [first]
    is the exception [gather] hands to its awaiter: the first one raised.
    The other tasks are not cancelled by [gather]; they run on for as long
    as the schedule lasts, which is until the process has unwound. *)
Fixpoint run_loop (env : Env) (self : PixabayDownloaderAsync) (sched : list nat)
    (ts : list tarea) (first : option exn) (w : World)
  : list tarea * option exn * World :=
  match sched with
  | [] => (ts, first, w)
  | i :: rest =>
      let '(ts', w') := turn env self i ts w in
      let first' := match first with
                    | Some e => Some e
                    | None => raised_at ts' i
                    end in
      run_loop env self rest ts' first' w'
  end.

Definition is_returned (t : tarea) : bool :=
  match t_estado t with Returned => true | _ => false end.

(** [await asyncio.gather] over the tasks: it raises the first exception
    of a task, returns one [None] per task once all have returned, and
    otherwise has not come back yet ([None]: the schedule is too short a
    history). *)
Definition gather (env : Env) (self : PixabayDownloaderAsync) (sched : list nat)
    (ts : list tarea) (w : World) : option (result (list unit) * World) :=
  let '(ts', first, w') := run_loop env self sched ts None w in
  match first with
  | Some e => Some (Raise e, w')
  | None =>
      if forallb is_returned ts' then Some (Ok (map (λ _, ()) ts'), w') else None
  end.

Definition nombre (i : nat) : string := "imagen_" +:+ pretty (i + 1) +:+ ".jpg".

(** The file of the task at position [i]. *)
Definition ruta (self : PixabayDownloaderAsync) (i : nat) : string :=
  os_path_join (directorio_imagenes self) (nombre i).

Definition lanzar (urls : list json) : list tarea :=
  imap (λ i url, mkTarea url (nombre i) Created) urls.

(** Lines 118 to 128: what [descargar_imagenes_concurrentes] does with the
    list the resolver gave it. *)
Definition fetch_stage (env : Env) (self : PixabayDownloaderAsync) (sched : list nat)
    (urls : list json) (w : World) : option (result unit * World) :=
  match urls with
  | [] => Some (print "No se encontraron imágenes para descargar." w)
  | _ =>
      match (lift (ssl_create_default_context env);; trace SessionOpened) w with
      | (Raise e, w1) => Some (Raise e, w1)
      | (Ok _, w1) =>
          match gather env self sched (lanzar urls) w1 with
          | None => None
          | Some (Raise e, w2) => Some (Raise e, w2)
          | Some (Ok _, w2) => Some (print "Todas las imágenes han sido descargadas." w2)
          end
      end
  end.

Definition descargar_imagenes_concurrentes (env : Env) (sched : list nat)
    (self : PixabayDownloaderAsync) (consulta : string) (cantidad : Z) (w : World)
  : option (result unit * World) :=
  match obtener_urls_imagenes env self consulta cantidad w with
  | (Raise e, w') => Some (Raise e, w')
  | (Ok urls, w') => fetch_stage env self sched urls w'
  end.

(** [asyncio.run(main())] *)
Definition main (env : Env) (sched : list nat) (w : World) : option (result unit * World) :=
  match __init__ "PON_AQUÍ_TU_API_KEY" "imagenes_descargadas" w with
  | (Raise e, w') => Some (Raise e, w')
  | (Ok descargador, w') =>
      descargar_imagenes_concurrentes env sched descargador "gatos" 50 w'
  end.

(** ** Vocabulary of the statements *)

(** Whether [open(ruta, 'wb')] and the [write] of [contenido] go through. *)
Definition writable (w : World) (ruta : string) (contenido : list Byte.byte) : bool :=
  match (open_wb ruta;; write ruta contenido) w with
  | (Ok _, _) => true
  | (Raise _, _) => false
  end.

(** The line the task at position [i] prints when it comes to its end
    without an exception. *)
Definition outcome_line (env : Env) (urls : list json) (i : nat) : string :=
  match urls !! i with
  | Some url =>
      match media env i url with
      | Response status _ =>
          if bool_decide (status = 200) then "Descarga completada: " +:+ nombre i
          else "Error descargando " +:+ nombre i +:+ ": " +:+ pretty status
      | NoResponse _ => ""
      end
  | None => ""
  end.

(** The task at position [i] cannot come to its end: its request gets no
    response, the body cannot be read, or the file cannot be written. *)
Definition crashes (env : Env) (self : PixabayDownloaderAsync) (w : World)
    (i : nat) (url : json) : Prop :=
  match media env i url with
  | NoResponse _ => True
  | Response status body =>
      status = 200 ∧
      match body with
      | Raise _ => True
      | Ok contenido => writable w (ruta self i) contenido = false
      end
  end.

(** Every directory of the file system lies in a directory. *)
Definition fs_ok (w : World) : Prop :=
  ∀ p, p ∈ dirs w → dirname p = "" ∨ isdir (dirname p) w = true.

(** A schedule that gives every one of [n] tasks the three turns a
    coroutine needs at most. *)
Definition complete (n : nat) (sched : list nat) : Prop :=
  ∀ i, i < n → 3 ≤ length (filter (λ j, j = i) sched).

Definition round_robin (n : nat) : list nat := seq 0 n ++ seq 0 n ++ seq 0 n.

(** The TLS context of a session can be built. *)
Definition session_ready (env : Env) : Prop := ssl_create_default_context env = Ok ().

(** ** The transitions of a download task *)

(** [resume] as a relation: from the state of the task [t] and the world
    [w], the state and the world after one turn. *)
Section TaskMachine.
Context (env : Env) (self : PixabayDownloaderAsync) (i : nat) (t : tarea) (w : World).

Inductive transition : estado → World → Prop :=
  | tr_start :
      t_estado t = Created →
      transition AwaitingResponse (record_net (HttpGet (t_url t) []) w)
  | tr_no_response e :
      t_estado t = AwaitingResponse →
      media env i (t_url t) = NoResponse e →
      transition (Raised e) w
  | tr_rejected status body :
      t_estado t = AwaitingResponse →
      media env i (t_url t) = Response status body →
      status ≠ 200 →
      transition Returned
        (emit ("Error descargando " +:+ t_nombre t +:+ ": " +:+ pretty status) w)
  | tr_accepted body :
      t_estado t = AwaitingResponse →
      media env i (t_url t) = Response 200 body →
      transition (AwaitingBody body) w
  | tr_body_lost e :
      t_estado t = AwaitingBody (Raise e) →
      transition (Raised e) w
  | tr_write_failed contenido e w' :
      t_estado t = AwaitingBody (Ok contenido) →
      (open_wb (os_path_join (directorio_imagenes self) (t_nombre t));;
       write (os_path_join (directorio_imagenes self) (t_nombre t)) contenido) w
      = (Raise e, w') →
      transition (Raised e) w'
  | tr_written contenido w' :
      t_estado t = AwaitingBody (Ok contenido) →
      (open_wb (os_path_join (directorio_imagenes self) (t_nombre t));;
       write (os_path_join (directorio_imagenes self) (t_nombre t)) contenido) w
      = (Ok (), w') →
      transition Returned (emit ("Descarga completada: " +:+ t_nombre t) w')
  | tr_returned :
      t_estado t = Returned → transition Returned w
  | tr_raised e :
      t_estado t = Raised e → transition (Raised e) w.

End TaskMachine.

(** ** The invariant of a batch *)

Section BatchInvariant.
Context (env : Env) (self : PixabayDownloaderAsync) (urls : list json) (w0 : World).

(** What is known of the task at position [i] and of its file, by the
    point the coroutine has reached.  [w0] is the world when the batch
    was started. *)
Definition task_inv (i : nat) (t : tarea) (w : World) : Prop :=
  match t_estado t with
  | Created | AwaitingResponse =>
      files w !! ruta self i = files w0 !! ruta self i
  | AwaitingBody body =>
      media env i (t_url t) = Response 200 body ∧
      files w !! ruta self i = files w0 !! ruta self i
  | Returned =>
      match media env i (t_url t) with
      | Response status body =>
          if bool_decide (status = 200)
          then ∃ c, body = Ok c ∧ writable w0 (ruta self i) c = true ∧
                    files w !! ruta self i = Some c
          else files w !! ruta self i = files w0 !! ruta self i
      | NoResponse _ => False
      end
  | Raised _ => crashes env self w0 i (t_url t)
  end.

Definition returned_at (ts : list tarea) (i : nat) : Prop :=
  ∃ t, ts !! i = Some t ∧ t_estado t = Returned.

Record batch_inv (ts : list tarea) (first : option exn) (w : World) : Prop := {
  inv_static : ∀ i t, ts !! i = Some t → urls !! i = Some (t_url t) ∧ t_nombre t = nombre i;
  inv_length : length ts = length urls;
  inv_dirs : dirs w = dirs w0;
  inv_readonly : readonly w = readonly w0;
  inv_limit : fsize_limit w = fsize_limit w0;
  inv_net_files : ∀ p, (∀ i, i < length urls → p ≠ ruta self i) →
                       files w !! p = files w0 !! p;
  inv_task : ∀ i t, ts !! i = Some t → task_inv i t w;
  inv_log : ∃ order, NoDup order ∧ (∀ i, i ∈ order ↔ returned_at ts i) ∧
                     stdout w = stdout w0 ++ map (outcome_line env urls) order;
  inv_first_none : first = None → ∀ i t e, ts !! i = Some t → t_estado t ≠ Raised e;
  inv_first_some : ∀ e, first = Some e → ∃ i t, ts !! i = Some t ∧ t_estado t = Raised e
}.

End BatchInvariant.

(** The turns a coroutine still needs, at most, to come to its end. *)
Definition turns_left (st : estado) : nat :=
  match st with
  | Created => 3
  | AwaitingResponse => 2
  | AwaitingBody _ => 1
  | Returned | Raised _ => 0
  end.

Definition turns_left_at (ts : list tarea) (j : nat) : nat :=
  match ts !! j with
  | Some t => turns_left (t_estado t)
  | None => 0
  end.

(** The world in which the tasks are started: the session is open. *)
Definition started (w : World) : World := record_net SessionOpened w.

(** How the making of directories changes the world: directories are
    added, in directories that exist, and nothing else happens. *)
Definition grows (w w' : World) : Prop :=
  files w' = files w ∧ stdout w' = stdout w ∧ net w' = net w ∧
  readonly w' = readonly w ∧
  dirs w ⊆ dirs w' ∧ (fs_ok w → fs_ok w').

(** Nothing stands where the directory [p] is to be: no regular file, no
    write protection. *)
Definition free (w : World) (p : string) : Prop :=
  p ≠ "" ∧ isfile p w = false ∧ isfile (norm p) w = false ∧ norm p ∉ readonly w.

(** The directory [p] is there, or can be made: directly, in a directory
    that is there, or after the directory above it has been made. *)
Inductive makeable (w : World) : string → Prop :=
  | makeable_there p :
      isdir p w = true → makeable w p
  | makeable_here p :
      free w p →
      dirname (norm p) = "" ∨ isdir (dirname (norm p)) w = true →
      makeable w p
  | makeable_below p :
      free w p →
      dirname (norm p) ≠ "" →
      makeable w (dirname (norm p)) →
      makeable w p.

(** ** Scenarios *)

(** A downloader and a world to run it in: the output directory is there,
    nothing has been downloaded or printed yet. *)
Definition demo_self : PixabayDownloaderAsync := mkDownloader "clave" "imagenes_descargadas".

Definition demo_world : World :=
  mkWorld {[ "imagenes_descargadas" ]} ∅ ∅ None [] [].

Definition jpeg : list Byte.byte := [Byte.xff; Byte.xd8; Byte.xff; Byte.xd9].

Definition hit (url : string) : json :=
  JObj [("id", JInt 7); ("largeImageURL", JStr url); ("tags", JStr "cat")].

Definition hits_body (urls : list string) : json :=
  JObj [("total", JInt 2); ("hits", JArr (map hit urls))].

(** An environment in which the API answers [a] and the request of the
    task at position [i] is answered [m i]. *)
Definition demo_env (a : response json) (m : nat → response (list Byte.byte)) : Env :=
  mkEnv (Ok ()) (λ _ _, a) (λ i _, m i).

Definition two_urls : list json := [JStr "https://cdn/a.jpg"; JStr "https://cdn/b.jpg"].

(** The first download cannot connect, the second would succeed. *)
Definition env_first_unreachable : Env :=
  demo_env (Response 200 (Ok (hits_body ["https://cdn/a.jpg"; "https://cdn/b.jpg"])))
           (λ i, if decide (i = 0) then NoResponse ClientError else Response 200 (Ok jpeg)).

(** The second download times out, the first is slow but would succeed. *)
Definition env_second_times_out : Env :=
  demo_env (Response 200 (Ok (hits_body ["https://cdn/a.jpg"; "https://cdn/b.jpg"])))
           (λ i, if decide (i = 1) then NoResponse TimeoutError else Response 200 (Ok jpeg)).

(** Every download succeeds. *)
Definition env_all_ok : Env :=
  demo_env (Response 200 (Ok (hits_body ["https://cdn/a.jpg"; "https://cdn/b.jpg"])))
           (λ _, Response 200 (Ok jpeg)).

(** The API answers with four hits, whatever was asked for. *)
Definition four_urls : list string :=
  ["https://cdn/a.jpg"; "https://cdn/b.jpg"; "https://cdn/c.jpg"; "https://cdn/d.jpg"].

Definition env_api_four_hits : Env :=
  demo_env (Response 200 (Ok (hits_body four_urls))) (λ _, Response 200 (Ok jpeg)).

(** The second image is gone. *)
Definition env_second_404 : Env :=
  demo_env (Response 200 (Ok (hits_body ["https://cdn/a.jpg"; "https://cdn/b.jpg"])))
           (λ i, if decide (i = 1) then Response 404 (Ok []) else Response 200 (Ok jpeg)).

(** Five images, the third of which is gone. *)
Definition five_urls : list json :=
  map JStr ["https://cdn/1.jpg"; "https://cdn/2.jpg"; "https://cdn/3.jpg";
            "https://cdn/4.jpg"; "https://cdn/5.jpg"].

Definition env_third_404 : Env :=
  demo_env (Response 200 (Ok (hits_body [])))
           (λ i, if decide (i = 2) then Response 404 (Ok []) else Response 200 (Ok jpeg)).

(** The API refuses the key; finds nothing; cannot be reached; answers
    with something that is not JSON. *)
Definition env_api_403 : Env := demo_env (Response 403 (Raise JSONDecodeError)) (λ _, NoResponse ClientError).
Definition env_api_no_hits : Env := demo_env (Response 200 (Ok (hits_body []))) (λ _, NoResponse ClientError).
Definition env_api_down : Env := demo_env (NoResponse ClientError) (λ _, NoResponse ClientError).
Definition env_api_garbage : Env := demo_env (Response 200 (Raise JSONDecodeError)) (λ _, NoResponse ClientError).

(** A world without any directory. *)
Definition world_empty : World := mkWorld ∅ ∅ ∅ None [] [].

(** A world in which the name of the first image is taken by a directory. *)
Definition world_name_taken : World :=
  mkWorld {[ "imagenes_descargadas"; "imagenes_descargadas/imagen_1.jpg" ]} ∅ ∅ None [] [].

(** ** Vocabulary of the further properties *)

(** The request of the task at position [i]. *)
Definition request_of (urls : list json) (i : nat) : net_event :=
  HttpGet (default JNull (urls !! i)) [].

Definition started_at (ts : list tarea) (i : nat) : Prop :=
  ∃ t, ts !! i = Some t ∧ t_estado t ≠ Created.

(** Why the task at position [i] can raise [e]: its request gets no
    response, its body cannot be read, or its file cannot be written. *)
Definition cause (env : Env) (self : PixabayDownloaderAsync) (w : World)
    (i : nat) (url : json) (e : exn) : Prop :=
  media env i url = NoResponse e
  ∨ media env i url = Response 200 (Raise e)
  ∨ ∃ c, media env i url = Response 200 (Ok c) ∧ writable w (ruta self i) c = false.

(** No body to write comes for the request. *)
Definition undelivered (env : Env) (i : nat) (url : json) : Prop :=
  ∀ c, media env i url ≠ Response 200 (Ok c).

(** What else holds of a batch at every turn: which requests have been
    sent, why a task has raised, and that a task without a body has not
    touched its file. *)
Record more_inv (env : Env) (self : PixabayDownloaderAsync) (urls : list json)
    (w0 : World) (ts : list tarea) (w : World) : Prop := {
  more_net : ∃ order, NoDup order ∧ (∀ i, i ∈ order ↔ started_at ts i) ∧
                      net w = net w0 ++ map (request_of urls) order;
  more_cause : ∀ i t e, ts !! i = Some t → t_estado t = Raised e →
                        cause env self w0 i (t_url t) e;
  more_untouched : ∀ i t, ts !! i = Some t → undelivered env i (t_url t) →
                          files w !! ruta self i = files w0 !! ruta self i
}.

(** The API answers with an object without [hits]; with a hit that has
    no [largeImageURL] between two that have one; with a list instead of
    an object. *)
Definition env_api_no_hits_key : Env :=
  demo_env (Response 200 (Ok (JObj [("total", JInt 0)]))) (λ _, NoResponse ClientError).

Definition env_api_bad_hit : Env :=
  demo_env (Response 200 (Ok (JObj [("hits", JArr [hit "https://cdn/a.jpg";
                                                     JObj [("id", JInt 8)];
                                                     hit "https://cdn/c.jpg"])])))
           (λ _, Response 200 (Ok jpeg)).

Definition env_api_list_body : Env :=
  demo_env (Response 200 (Ok (JArr []))) (λ _, NoResponse ClientError).

(** A world in which the name of the output directory is taken by a file,
    and one in which an image is there from an earlier run. *)
Definition world_dir_is_file : World :=
  mkWorld ∅ {[ "imagenes_descargadas" := [] ]} ∅ None [] [].

Definition world_old_image : World :=
  mkWorld {[ "imagenes_descargadas" ]}
          {[ "imagenes_descargadas/imagen_1.jpg" := [Byte.x00];
             "imagenes_descargadas/imagen_3.jpg" := [Byte.x00] ]} ∅ None [] [].

(** * Proofs *)

(** ** Strings and paths *)

Lemma append_nil (b : string) : "" +:+ b = b.
Proof. reflexivity. Qed.

Lemma append_cons (x : ascii) (a b : string) : String x a +:+ b = String x (a +:+ b).
Proof. reflexivity. Qed.

Lemma append_assoc (a b c : string) : (a +:+ b) +:+ c = a +:+ (b +:+ c).
Proof.
  induction a as [|x a IH]; [done|].
  rewrite !append_cons. by rewrite IH.
Qed.

Lemma append_length (a b : string) :
  String.length (a +:+ b) = String.length a + String.length b.
Proof.
  induction a as [|x a IH]; [done|].
  rewrite append_cons. simpl. by rewrite IH.
Qed.

Lemma append_inj_r (a b t : string) : a +:+ t = b +:+ t → a = b.
Proof.
  revert b. induction a as [|x a IH]; intros [|y b] H.
  - done.
  - apply (f_equal String.length) in H.
    rewrite append_nil, append_cons in H. simpl in H. rewrite append_length in H. lia.
  - apply (f_equal String.length) in H.
    rewrite append_nil, append_cons in H. simpl in H. rewrite append_length in H. lia.
  - rewrite !append_cons in H. injection H as -> H. f_equal. by apply IH.
Qed.

Lemma nombre_inj (i j : nat) : nombre i = nombre j → i = j.
Proof.
  unfold nombre. intros H.
  apply (inj (String.append "imagen_")) in H.
  apply append_inj_r in H.
  apply (inj pretty) in H. lia.
Qed.

Lemma nombre_relative (i : nat) : starts_with_slash (nombre i) = false.
Proof. reflexivity. Qed.

Lemma ruta_prefix (self : PixabayDownloaderAsync) :
  ∃ pre, ∀ i, ruta self i = pre +:+ nombre i.
Proof.
  unfold ruta, os_path_join.
  destruct (bool_decide (directorio_imagenes self = "") || ends_with_slash (directorio_imagenes self)).
  - exists (directorio_imagenes self). intros i. by rewrite nombre_relative.
  - exists (directorio_imagenes self +:+ "/"). intros i.
    rewrite nombre_relative. symmetry. apply append_assoc.
Qed.

Lemma ruta_inj (self : PixabayDownloaderAsync) (i j : nat) :
  ruta self i = ruta self j → i = j.
Proof.
  destruct (ruta_prefix self) as [pre Hpre]. rewrite !Hpre. intros H.
  apply (inj (String.append pre)) in H. by apply nombre_inj.
Qed.

(** ** What a write touches *)

Lemma open_write_frame (w : World) (p : string) (c : list Byte.byte)
    (r : result unit) (w' : World) :
  (open_wb p;; write p c) w = (r, w') →
  dirs w' = dirs w ∧ readonly w' = readonly w ∧ fsize_limit w' = fsize_limit w ∧
  stdout w' = stdout w ∧ net w' = net w ∧
  (∀ q, q ≠ p → files w' !! q = files w !! q) ∧
  (r = Ok () → files w' !! p = Some c).
Proof.
  unfold mbind, M_bind, open_wb, write. intros H.
  repeat case_match; simplify_eq; simpl;
    split_and!; try done; intros; simplify_map_eq; done.
Qed.

Lemma writable_spec (w : World) (p : string) (c : list Byte.byte) :
  writable w p c = true ↔ ∃ w', (open_wb p;; write p c) w = (Ok (), w').
Proof.
  unfold writable. destruct ((open_wb p;; write p c) w) as [[[]|e] w'].
  - split; [eauto | done].
  - split; [done | by intros [? ?]].
Qed.

(** Whether a file can be written is a matter of the directories, the
    permissions and the size limit: the files already there do not count. *)
Lemma writable_static (w w' : World) (p : string) (c : list Byte.byte) :
  dirs w = dirs w' → readonly w = readonly w' → fsize_limit w = fsize_limit w' →
  writable w p c = writable w' p c.
Proof.
  destruct w, w'. simpl. intros -> -> ->.
  unfold writable, mbind, M_bind, open_wb, write, parent_check, isdir, set_files. simpl.
  repeat (case_match; simplify_eq/=); done.
Qed.

(** ** The transitions of a download task *)

Section Transitions.
Context (env : Env) (self : PixabayDownloaderAsync) (i : nat) (t : tarea) (w : World).

Lemma resume_transition :
  transition env self i t w (resume env self i t w).1 (resume env self i t w).2.
Proof.
  unfold resume. destruct (t_estado t) as [| |[c|e]| |e] eqn:Hst; simpl.
  - by constructor.
  - destruct (media env i (t_url t)) as [e|status body] eqn:Hm; simpl.
    + by constructor.
    + case_bool_decide as Hs; simpl.
      * subst status. by constructor.
      * by econstructor.
  - destruct ((open_wb _;; write _ c) w) as [[[]|e] w'] eqn:Hw; simpl.
    + by econstructor.
    + by econstructor.
  - by constructor.
  - by constructor.
  - by constructor.
Qed.

Lemma transition_frame (st : estado) (w' : World) :
  transition env self i t w st w' →
  dirs w' = dirs w ∧ readonly w' = readonly w ∧ fsize_limit w' = fsize_limit w ∧
  (∀ q, q ≠ os_path_join (directorio_imagenes self) (t_nombre t) → files w' !! q = files w !! q).
Proof.
  destruct 1 as [ | | | | |c e w' _ Hw|c w' _ Hw| | ]; try done.
  - destruct (open_write_frame _ _ _ _ _ Hw) as (?&?&?&?&?&?&?). done.
  - destruct (open_write_frame _ _ _ _ _ Hw) as (?&?&?&?&?&?&?). done.
Qed.
End Transitions.

(** ** The invariant of a batch *)

Section Batch.
Context (env : Env) (self : PixabayDownloaderAsync) (urls : list json) (w0 : World).

Lemma task_inv_files (i : nat) (t : tarea) (w w' : World) :
  files w' !! ruta self i = files w !! ruta self i →
  task_inv env self w0 i t w → task_inv env self w0 i t w'.
Proof. unfold task_inv. intros ->. done. Qed.

Lemma lanzar_lookup (i : nat) (t : tarea) :
  lanzar urls !! i = Some t →
  urls !! i = Some (t_url t) ∧ t_nombre t = nombre i ∧ t_estado t = Created.
Proof.
  unfold lanzar. rewrite list_lookup_imap.
  destruct (urls !! i) as [url|]; simpl; [|done].
  by intros [= <-].
Qed.

Lemma batch_inv_init : batch_inv env self urls w0 (lanzar urls) None w0.
Proof.
  split; try done.
  - intros i t Hi. apply lanzar_lookup in Hi. tauto.
  - unfold lanzar. by rewrite length_imap.
  - intros i t Hi. apply lanzar_lookup in Hi as (_ & _ & Hst).
    unfold task_inv. by rewrite Hst.
  - exists []. split_and!.
    + constructor.
    + intros i. split; [by intros ?%elem_of_nil|].
      intros (t & Hi & Hst). apply lanzar_lookup in Hi as (_ & _ & ?). congruence.
    + simpl. by rewrite app_nil_r.
  - intros _ i t e Hi. apply lanzar_lookup in Hi as (_ & _ & ->). done.
Qed.

(** One transition of the task at position [i]: its part of the
    invariant, what it prints, and that an exception is final. *)
Lemma transition_task_inv (i : nat) (t : tarea) (w : World) (st : estado) (w' : World) :
  urls !! i = Some (t_url t) → t_nombre t = nombre i →
  dirs w = dirs w0 → readonly w = readonly w0 → fsize_limit w = fsize_limit w0 →
  task_inv env self w0 i t w → transition env self i t w st w' →
  task_inv env self w0 i (mkTarea (t_url t) (t_nombre t) st) w'
  ∧ ((st = Returned ∧ t_estado t ≠ Returned ∧
      stdout w' = stdout w ++ [outcome_line env urls i])
     ∨ ((st = Returned ↔ t_estado t = Returned) ∧ stdout w' = stdout w))
  ∧ (∀ e, t_estado t = Raised e → st = Raised e).
Proof.
  intros Hurl Hname Hd Hro Hl Hpre Htr.
  assert (os_path_join (directorio_imagenes self) (t_nombre t) = ruta self i) as Hruta.
  { unfold ruta. by rewrite Hname. }
  unfold task_inv in *. simpl.
  destruct Htr as [Hst|e Hst Hm|status body Hst Hm Hs|body Hst Hm|e Hst
                  |c e w' Hst Hw|c w' Hst Hw|Hst|e Hst];
    rewrite Hst in Hpre; rewrite ?Hruta in *.
  - split; [done|split; [ |intros; congruence]].
    right. split; [|done]. split; intros; congruence.
  - split; [|split; [right|intros; congruence]].
    + unfold crashes. by rewrite Hm.
    + split; [|done]. split; intros; congruence.
  - split; [|split; [left|intros; congruence]].
    + rewrite Hm. by rewrite bool_decide_false.
    + split_and!; [done|congruence|]. simpl.
      unfold outcome_line. rewrite Hurl, Hm, bool_decide_false by done.
      by rewrite Hname.
  - split; [done|split; [right|intros; congruence]].
    split; [|done]. split; intros; congruence.
  - destruct Hpre as [Hm _]. split; [|split; [right|intros; congruence]].
    + unfold crashes. by rewrite Hm.
    + split; [|done]. split; intros; congruence.
  - destruct Hpre as [Hm _].
    destruct (open_write_frame _ _ _ _ _ Hw) as (?&?&?&Hout&?&?&?).
    split; [|split; [right|intros; congruence]].
    + unfold crashes. rewrite Hm. split; [done|].
      rewrite <-(writable_static w w0) by done.
      unfold writable. by rewrite Hw.
    + split; [|done]. split; intros; congruence.
  - destruct Hpre as [Hm _].
    destruct (open_write_frame _ _ _ _ _ Hw) as (?&?&?&Hout&?&?&Hc).
    split; [|split; [left|intros; congruence]].
    + rewrite Hm. rewrite bool_decide_true by done.
      exists c. split_and!; [done| |by apply Hc].
      rewrite <-(writable_static w w0) by done.
      unfold writable. by rewrite Hw.
    + split_and!; [done|congruence|]. simpl. rewrite Hout.
      unfold outcome_line. rewrite Hurl, Hm, bool_decide_true by done.
      by rewrite Hname.
  - split; [done|split; [right|intros; congruence]]. done.
  - split; [done|split; [right|intros; congruence]].
    split; [|done]. split; intros; congruence.
Qed.

Lemma returned_at_insert_ne (ts : list tarea) (i j : nat) (t' : tarea) :
  j ≠ i → returned_at (<[i:=t']> ts) j ↔ returned_at ts j.
Proof. intros Hne. unfold returned_at. by rewrite list_lookup_insert_ne. Qed.

Lemma returned_at_insert_eq (ts : list tarea) (i : nat) (t t' : tarea) :
  ts !! i = Some t →
  returned_at (<[i:=t']> ts) i ↔ t_estado t' = Returned.
Proof.
  intros Hi. unfold returned_at.
  rewrite list_lookup_insert_eq by (by eapply lookup_lt_Some).
  split; [by intros (? & [= <-] & ?) | eauto].
Qed.

(** A turn of the loop keeps the invariant. *)
Lemma batch_inv_turn (i : nat) (ts : list tarea) (first : option exn) (w : World) :
  batch_inv env self urls w0 ts first w →
  batch_inv env self urls w0 (turn env self i ts w).1
            (match first with
             | Some e => Some e
             | None => raised_at (turn env self i ts w).1 i
             end)
            (turn env self i ts w).2.
Proof.
  intros Hinv. unfold turn.
  destruct (ts !! i) as [t|] eqn:Hi; simpl.
  2:{ destruct Hinv. split; try done.
      - destruct first; [done|]. unfold raised_at. rewrite Hi. done.
      - intros e. destruct first; [by apply inv_first_some0|].
        unfold raised_at. by rewrite Hi. }
  pose proof (resume_transition env self i t w) as Htr.
  destruct (resume env self i t w) as [st w'] eqn:Hr. simpl in *.
  destruct (inv_static _ _ _ _ _ _ _ Hinv i t Hi) as [Hurl Hname].
  assert (i < length ts) as Hlt by (by eapply lookup_lt_Some).
  destruct (transition_frame _ _ _ _ _ _ _ Htr) as (Hd & Hro & Hl & Hfr).
  assert (os_path_join (directorio_imagenes self) (t_nombre t) = ruta self i) as Hruta.
  { unfold ruta. by rewrite Hname. }
  rewrite Hruta in Hfr.
  destruct (transition_task_inv i t w st w' Hurl Hname
              (inv_dirs _ _ _ _ _ _ _ Hinv) (inv_readonly _ _ _ _ _ _ _ Hinv) (inv_limit _ _ _ _ _ _ _ Hinv)
              (inv_task _ _ _ _ _ _ _ Hinv i t Hi) Htr) as (Hpost & Hlog & Hfinal).
  set (t' := mkTarea (t_url t) (t_nombre t) st) in *.
  split.
  - intros j tj Hj. destruct (decide (j = i)) as [->|Hne].
    + rewrite list_lookup_insert_eq in Hj by done. by injection Hj as <-.
    + rewrite list_lookup_insert_ne in Hj by done. by eapply inv_static.
  - rewrite length_insert. by eapply inv_length.
  - rewrite Hd. by eapply inv_dirs.
  - rewrite Hro. by eapply inv_readonly.
  - rewrite Hl. by eapply inv_limit.
  - intros p Hp. rewrite Hfr.
    + by eapply inv_net_files.
    + apply Hp. rewrite <-(inv_length _ _ _ _ _ _ _ Hinv). done.
  - intros j tj Hj. destruct (decide (j = i)) as [->|Hne].
    + rewrite list_lookup_insert_eq in Hj by done. by injection Hj as <-.
    + rewrite list_lookup_insert_ne in Hj by done.
      apply (task_inv_files j tj w w').
      * apply Hfr. intros Heq. by apply ruta_inj in Heq.
      * by eapply inv_task.
  - destruct (inv_log _ _ _ _ _ _ _ Hinv) as (order & Hnd & Hmem & Hout).
    destruct Hlog as [(Hst & Hpre & Hout')|(Hst & Hout')].
    + exists (order ++ [i]). split_and!.
      * apply NoDup_app. split_and!; [done| |apply NoDup_singleton].
        intros j Hj ->%list_elem_of_singleton.
        apply Hmem in Hj as (tj & Htj & Hsj). congruence.
      * intros j. rewrite elem_of_app, list_elem_of_singleton.
        destruct (decide (j = i)) as [->|Hne].
        -- rewrite (returned_at_insert_eq ts i t t') by done. simpl. tauto.
        -- rewrite returned_at_insert_ne by done. rewrite Hmem. tauto.
      * rewrite Hout', Hout, map_app. simpl. by rewrite <-app_assoc.
    + exists order. split_and!; [done| |by rewrite Hout'].
      intros j. rewrite Hmem.
      destruct (decide (j = i)) as [->|Hne].
      * rewrite (returned_at_insert_eq ts i t t') by done. simpl.
        rewrite Hst. unfold returned_at. rewrite Hi.
        split; [by intros (? & [= <-] & ?) | eauto].
      * by rewrite returned_at_insert_ne.
  - destruct first as [e0|]; [done|]. intros Hnone j tj e Hj.
    destruct (decide (j = i)) as [->|Hne].
    + unfold raised_at in Hnone. rewrite Hj in Hnone.
      destruct (t_estado tj); congruence.
    + rewrite list_lookup_insert_ne in Hj by done.
      by eapply (inv_first_none _ _ _ _ _ _ _ Hinv).
  - intros e He. destruct first as [e0|].
    + injection He as ->.
      destruct (inv_first_some _ _ _ _ _ _ _ Hinv e eq_refl) as (j & tj & Hj & Hsj).
      destruct (decide (j = i)) as [->|Hne].
      * exists i, t'. rewrite list_lookup_insert_eq by done.
        split; [done|]. simpl. apply Hfinal. congruence.
      * exists j, tj. by rewrite list_lookup_insert_ne.
    + unfold raised_at in He.
      destruct (<[i:=t']> ts !! i) as [ti|] eqn:Hti; [|done].
      exists i, ti. split; [done|]. destruct (t_estado ti); congruence.
Qed.

Lemma batch_inv_run (sched : list nat) (ts : list tarea) (first : option exn) (w : World) :
  batch_inv env self urls w0 ts first w →
  batch_inv env self urls w0 (run_loop env self sched ts first w).1.1
            (run_loop env self sched ts first w).1.2
            (run_loop env self sched ts first w).2.
Proof.
  revert ts first w. induction sched as [|i sched IH]; intros ts first w Hinv; [done|].
  simpl. pose proof (batch_inv_turn i ts first w Hinv) as Hturn.
  destruct (turn env self i ts w) as [ts' w']. by apply IH.
Qed.
End Batch.

(** ** Progress: three turns bring a task to its end *)

Lemma resume_turns_left (env : Env) (self : PixabayDownloaderAsync) (i : nat)
    (t : tarea) (w : World) :
  turns_left (resume env self i t w).1 ≤ pred (turns_left (t_estado t)).
Proof.
  pose proof (resume_transition env self i t w) as Htr.
  destruct Htr as [Hst| ? Hst ?| ? ? Hst ? ?| ? Hst ?| ? Hst| ? ? ? Hst ?| ? ? Hst ?|Hst| ? Hst];
    rewrite Hst; simpl; lia.
Qed.

Lemma turn_turns_left (env : Env) (self : PixabayDownloaderAsync) (i j : nat)
    (ts : list tarea) (w : World) :
  turns_left_at (turn env self i ts w).1 j
  ≤ turns_left_at ts j - (if decide (i = j) then 1 else 0).
Proof.
  unfold turn, turns_left_at.
  destruct (ts !! i) as [t|] eqn:Hi; simpl.
  - pose proof (resume_turns_left env self i t w) as Hle.
    destruct (resume env self i t w) as [st w']. simpl in *.
    destruct (decide (i = j)) as [->|Hne].
    + rewrite list_lookup_insert_eq by (by eapply lookup_lt_Some).
      rewrite Hi. simpl. lia.
    + rewrite list_lookup_insert_ne by done. lia.
  - destruct (decide (i = j)) as [->|Hne]; [rewrite Hi|]; lia.
Qed.

Lemma run_loop_turns_left (env : Env) (self : PixabayDownloaderAsync) (j : nat)
    (sched : list nat) (ts : list tarea) (first : option exn) (w : World) :
  turns_left_at (run_loop env self sched ts first w).1.1 j
  ≤ turns_left_at ts j - length (filter (λ i, i = j) sched).
Proof.
  revert ts first w. induction sched as [|i sched IH]; intros ts first w; simpl.
  - lia.
  - pose proof (turn_turns_left env self i j ts w) as Hle.
    destruct (turn env self i ts w) as [ts' w']. simpl in Hle.
    etrans; [apply IH|].
    rewrite filter_cons. destruct (decide (i = j)); simpl; lia.
Qed.

Lemma round_robin_complete (n : nat) : complete n (round_robin n).
Proof.
  intros i Hi. unfold round_robin. rewrite !filter_app, !length_app.
  assert (1 ≤ length (filter (λ j, j = i) (seq 0 n))) as Hone.
  { assert (i ∈ filter (λ j, j = i) (seq 0 n)) as Hin.
    { apply list_elem_of_filter. split; [done|]. apply elem_of_seq. lia. }
    destruct (filter (λ j, j = i) (seq 0 n)); [by apply elem_of_nil in Hin | simpl; lia]. }
  lia.
Qed.

(** ** What a run of the batch comes to *)

Section Runs.
Context (env : Env) (self : PixabayDownloaderAsync) (urls : list json).

(** The reading of a finished run of [gather]: the final states of the
    tasks satisfy the invariant, and the result is the first exception,
    or every task has returned. *)
Lemma gather_inv (sched : list nat) (w0 : World) (r : result (list unit)) (w' : World) :
  gather env self sched (lanzar urls) w0 = Some (r, w') →
  ∃ ts first,
    run_loop env self sched (lanzar urls) None w0 = (ts, first, w') ∧
    batch_inv env self urls w0 ts first w' ∧
    match first with
    | Some e => r = Raise e
    | None => (∃ l, r = Ok l) ∧ ∀ i t, ts !! i = Some t → t_estado t = Returned
    end.
Proof.
  unfold gather.
  pose proof (batch_inv_run env self urls w0 sched _ _ _ (batch_inv_init env self urls w0)) as Hinv.
  destruct (run_loop env self sched (lanzar urls) None w0) as [[ts first] w2]. simpl in Hinv.
  destruct first as [e|].
  - intros [= <- <-]. by exists ts, (Some e).
  - destruct (forallb is_returned ts) eqn:Hall; [|done].
    intros [= <- <-]. exists ts, None. split_and!; [done|done|eauto|].
    intros i t Hi. rewrite forallb_forall in Hall.
    assert (is_returned t = true) as Hr.
    { apply Hall. apply list_elem_of_In. by eapply list_elem_of_lookup_2. }
    unfold is_returned in Hr. by destruct (t_estado t).
Qed.

(** A complete schedule is a finished run. *)
Lemma gather_complete (sched : list nat) (w0 : World) :
  complete (length urls) sched →
  ∃ r w', gather env self sched (lanzar urls) w0 = Some (r, w').
Proof.
  intros Hc. unfold gather.
  pose proof (batch_inv_run env self urls w0 sched _ _ _ (batch_inv_init env self urls w0)) as Hinv.
  pose proof (λ j, run_loop_turns_left env self j sched (lanzar urls) None w0) as Hleft.
  destruct (run_loop env self sched (lanzar urls) None w0) as [[ts first] w2]. simpl in *.
  destruct first as [e|]; [eauto|].
  cut (forallb is_returned ts = true); [intros ->; eauto|].
  apply forallb_forall. intros t [i Hi]%list_elem_of_In%list_elem_of_lookup_1.
  assert (i < length urls) as Hlt.
  { rewrite <-(inv_length _ _ _ _ _ _ _ Hinv). by eapply lookup_lt_Some. }
  specialize (Hleft i). specialize (Hc i Hlt).
  unfold turns_left_at in Hleft. rewrite Hi in Hleft.
  destruct (lanzar urls !! i) as [t0|] eqn:H0.
  2:{ apply lookup_ge_None in H0. unfold lanzar in H0. rewrite length_imap in H0. lia. }
  apply lanzar_lookup in H0 as (_ & _ & H0). rewrite H0 in Hleft. simpl in Hleft.
  unfold is_returned.
  destruct (t_estado t) eqn:Hst; simpl in Hleft; try lia; try done.
  by eapply (inv_first_none _ _ _ _ _ _ _ Hinv) in Hst.
Qed.

(** The three ways the download stage of a non-empty list ends. *)
Lemma fetch_stage_cases (sched : list nat) (w : World) (r : result unit) (w' : World) :
  urls ≠ [] →
  fetch_stage env self sched urls w = Some (r, w') →
  (∃ e, ssl_create_default_context env = Raise e ∧ r = Raise e ∧ w' = w)
  ∨ (session_ready env ∧
     ∃ ts first w2,
       run_loop env self sched (lanzar urls) None (started w) = (ts, first, w2) ∧
       batch_inv env self urls (started w) ts first w2 ∧
       match first with
       | Some e => r = Raise e ∧ w' = w2
       | None =>
           r = Ok () ∧ w' = emit "Todas las imágenes han sido descargadas." w2 ∧
           ∀ i t, ts !! i = Some t → t_estado t = Returned
       end).
Proof.
  intros Hne. unfold fetch_stage. destruct urls as [|u us] eqn:Hurls; [done|].
  rewrite <-Hurls in *. clear Hurls.
  unfold mbind, M_bind, lift, trace, session_ready.
  destruct (ssl_create_default_context env) as [[]|e].
  2:{ intros [= <- <-]. left. eauto. }
  fold (started w).
  destruct (gather env self sched (lanzar urls) (started w)) as [[rg w2]|] eqn:Hg; [|done].
  apply gather_inv in Hg as (ts & first & Hrun & Hinv & Hres).
  intros Hr. right. split; [done|]. exists ts, first, w2. split_and!; [done|done|].
  destruct first as [e|].
  - subst rg. by injection Hr as <- <-.
  - destruct Hres as [[l ->] Hall]. unfold print in Hr. by injection Hr as <- <-.
Qed.

Lemma fetch_stage_complete (sched : list nat) (w : World) :
  complete (length urls) sched →
  ∃ r w', fetch_stage env self sched urls w = Some (r, w').
Proof.
  intros Hc. unfold fetch_stage. destruct urls as [|u us] eqn:Hurls; [eauto|].
  rewrite <-Hurls in *. clear Hurls.
  unfold mbind, M_bind, lift, trace.
  destruct (ssl_create_default_context env) as [[]|e]; [|eauto].
  destruct (gather_complete sched (record_net SessionOpened w) Hc) as (rg & w2 & ->).
  destruct rg; eauto.
Qed.

Lemma crashes_started (w : World) (i : nat) (url : json) :
  crashes env self (started w) i url ↔ crashes env self w i url.
Proof.
  unfold crashes. destruct (media env i url) as [e|status [c|e]]; [done| |done].
  by rewrite (writable_static (started w) w).
Qed.

(** What the invariant says of a task that has returned. *)
Lemma returned_task (w0 w' : World) (i : nat) (t : tarea) :
  task_inv env self w0 i t w' → t_estado t = Returned →
  ¬ crashes env self w0 i (t_url t) ∧
  ∃ status body, media env i (t_url t) = Response status body ∧
    if bool_decide (status = 200)
    then ∃ c, body = Ok c ∧ files w' !! ruta self i = Some c
    else files w' !! ruta self i = files w0 !! ruta self i.
Proof.
  unfold task_inv, crashes. intros Hinv Hst. rewrite Hst in Hinv.
  destruct (media env i (t_url t)) as [e|status body]; [done|].
  case_bool_decide as Hs.
  - destruct Hinv as (c & -> & Hw & Hf). split.
    + intros [_ Hno]. congruence.
    + exists status, (Ok c). split; [done|]. rewrite bool_decide_true by done. eauto.
  - split; [by intros [? _]|].
    exists status, body. split; [done|]. by rewrite bool_decide_false.
Qed.

Lemma fetch_stage_crash (sched : list nat) (w : World) (r : result unit) (w' : World)
    (i : nat) (url : json) :
  urls !! i = Some url → crashes env self w i url →
  fetch_stage env self sched urls w = Some (r, w') →
  ∃ e, r = Raise e.
Proof.
  intros Hi Hcr Hrun.
  assert (urls ≠ []) as Hne by (by intros Hnil; rewrite Hnil in Hi).
  destruct (fetch_stage_cases sched w r w' Hne Hrun)
    as [(e & _ & -> & _)|(_ & ts & first & w2 & _ & Hinv & Hres)]; [eauto|].
  destruct first as [e|]; [destruct Hres; eauto|].
  destruct Hres as (_ & _ & Hall). exfalso.
  destruct (ts !! i) as [t|] eqn:Ht.
  2:{ apply lookup_ge_None in Ht. apply lookup_lt_Some in Hi.
      rewrite (inv_length _ _ _ _ _ _ _ Hinv) in Ht. lia. }
  destruct (inv_static _ _ _ _ _ _ _ Hinv i t Ht) as [Hurl _].
  assert (t_url t = url) as Heq by congruence.
  destruct (returned_task _ _ i t (inv_task _ _ _ _ _ _ _ Hinv i t Ht) (Hall i t Ht))
    as [Hno _].
  apply Hno. apply crashes_started. by rewrite Heq.
Qed.

Lemma fetch_stage_no_crash (sched : list nat) (w : World) (r : result unit) (w' : World) :
  session_ready env →
  (∀ i url, urls !! i = Some url → ¬ crashes env self w i url) →
  fetch_stage env self sched urls w = Some (r, w') →
  r = Ok ().
Proof.
  intros Hssl Hok Hrun.
  destruct (decide (length urls = 0)) as [Hz|Hnz].
  { destruct urls; [|done]. unfold fetch_stage, print in Hrun. by injection Hrun as <- _. }
  assert (urls ≠ []) as Hne by (by intros Hnil; rewrite Hnil in Hnz).
  destruct (fetch_stage_cases sched w r w' Hne Hrun)
    as [(e & He & _)|(_ & ts & first & w2 & _ & Hinv & Hres)].
  { unfold session_ready in Hssl. congruence. }
  destruct first as [e|]; [|by destruct Hres].
  exfalso.
  destruct (inv_first_some _ _ _ _ _ _ _ Hinv e eq_refl) as (i & t & Ht & Hst).
  destruct (inv_static _ _ _ _ _ _ _ Hinv i t Ht) as [Hurl _].
  apply (Hok i (t_url t) Hurl). apply crashes_started.
  pose proof (inv_task _ _ _ _ _ _ _ Hinv i t Ht) as Hti.
  unfold task_inv in Hti. by rewrite Hst in Hti.
Qed.

(** The lines of a run that returned: one per task, in the order in
    which the tasks came to their end, and then the closing line. *)
Lemma fetch_stage_log (sched : list nat) (w w' : World) :
  urls ≠ [] →
  fetch_stage env self sched urls w = Some (Ok (), w') →
  ∃ order, order ≡ₚ seq 0 (length urls) ∧
    stdout w' = stdout w ++ map (outcome_line env urls) order
                         ++ ["Todas las imágenes han sido descargadas."].
Proof.
  intros Hne Hrun.
  destruct (fetch_stage_cases sched w _ w' Hne Hrun)
    as [(e & _ & ? & _)|(_ & ts & first & w2 & _ & Hinv & Hres)]; [done|].
  destruct first as [e|]; [by destruct Hres|].
  destruct Hres as (_ & -> & Hall).
  destruct (inv_log _ _ _ _ _ _ _ Hinv) as (order & Hnd & Hmem & Hout).
  exists order. split.
  - apply NoDup_Permutation; [done|apply NoDup_seq|].
    intros i. rewrite Hmem, elem_of_seq.
    rewrite <-(inv_length _ _ _ _ _ _ _ Hinv). split.
    + intros (t & Ht & _). apply lookup_lt_Some in Ht. lia.
    + intros [_ Hlt]. destruct (lookup_lt_is_Some_2 ts i) as [t Ht]; [lia|].
      exists t. eauto.
  - simpl. rewrite Hout. simpl. by rewrite <-app_assoc.
Qed.

(** The state of every task and of its file when the stage returns. *)
Lemma fetch_stage_outcome (sched : list nat) (w w' : World) (i : nat) (url : json) :
  urls !! i = Some url →
  fetch_stage env self sched urls w = Some (Ok (), w') →
  outcome_line env urls i ∈ stdout w' ∧
  ∃ status body, media env i url = Response status body ∧
    if bool_decide (status = 200)
    then ∃ c, body = Ok c ∧ files w' !! ruta self i = Some c
    else files w' !! ruta self i = files w !! ruta self i.
Proof.
  intros Hi Hrun.
  assert (urls ≠ []) as Hne by (by intros Hnil; rewrite Hnil in Hi).
  destruct (fetch_stage_log sched w w' Hne Hrun) as (order & Hperm & Hout).
  destruct (fetch_stage_cases sched w _ w' Hne Hrun)
    as [(e & _ & ? & _)|(_ & ts & first & w2 & _ & Hinv & Hres)]; [done|].
  destruct first as [e|]; [by destruct Hres|].
  destruct Hres as (_ & -> & Hall).
  split.
  - rewrite Hout, !elem_of_app. right. left.
    apply list_elem_of_fmap. exists i. split; [done|].
    rewrite Hperm. apply elem_of_seq. apply lookup_lt_Some in Hi. lia.
  - destruct (ts !! i) as [t|] eqn:Ht.
    2:{ apply lookup_ge_None in Ht. apply lookup_lt_Some in Hi.
        rewrite (inv_length _ _ _ _ _ _ _ Hinv) in Ht. lia. }
    destruct (inv_static _ _ _ _ _ _ _ Hinv i t Ht) as [Hurl _].
    assert (t_url t = url) as Heq by congruence.
    destruct (returned_task _ _ i t (inv_task _ _ _ _ _ _ _ Hinv i t Ht) (Hall i t Ht))
      as [_ (status & body & Hm & Hf)].
    rewrite Heq in Hm. exists status, body. split; [done|]. done.
Qed.

(** Whatever the run, nothing but the files of the tasks is written. *)
Lemma fetch_stage_frame (sched : list nat) (w : World) (r : result unit) (w' : World) :
  fetch_stage env self sched urls w = Some (r, w') →
  dirs w' = dirs w ∧
  ∀ p, (∀ i, i < length urls → p ≠ ruta self i) → files w' !! p = files w !! p.
Proof.
  intros Hrun.
  destruct (decide (length urls = 0)) as [Hz|Hnz].
  { destruct urls; [|done]. unfold fetch_stage, print in Hrun. by injection Hrun as _ <-. }
  assert (urls ≠ []) as Hne by (by intros Hnil; rewrite Hnil in Hnz).
  destruct (fetch_stage_cases sched w r w' Hne Hrun)
    as [(e & _ & _ & ->)|(_ & ts & first & w2 & _ & Hinv & Hres)]; [done|].
  pose proof (inv_dirs _ _ _ _ _ _ _ Hinv) as Hd.
  pose proof (inv_net_files _ _ _ _ _ _ _ Hinv) as Hf.
  destruct first as [e|]; [destruct Hres as [_ ->]|destruct Hres as (_ & -> & _)]; done.
Qed.

(** A task whose request is answered with another status than 200 leaves
    its file as it was, in every run. *)
Lemma fetch_stage_rejected (sched : list nat) (w : World) (r : result unit) (w' : World)
    (i : nat) (url : json) (status : nat) (body : result (list Byte.byte)) :
  urls !! i = Some url → media env i url = Response status body → status ≠ 200 →
  fetch_stage env self sched urls w = Some (r, w') →
  files w' !! ruta self i = files w !! ruta self i.
Proof.
  intros Hi Hm Hs Hrun.
  assert (urls ≠ []) as Hne by (by intros Hnil; rewrite Hnil in Hi).
  destruct (fetch_stage_cases sched w r w' Hne Hrun)
    as [(e & _ & _ & ->)|(_ & ts & first & w2 & _ & Hinv & Hres)]; [done|].
  assert (files w2 !! ruta self i = files w !! ruta self i) as Hw2.
  { destruct (ts !! i) as [t|] eqn:Ht.
    2:{ apply lookup_ge_None in Ht. apply lookup_lt_Some in Hi.
        rewrite (inv_length _ _ _ _ _ _ _ Hinv) in Ht. lia. }
    destruct (inv_static _ _ _ _ _ _ _ Hinv i t Ht) as [Hurl _].
    assert (t_url t = url) as Heq by congruence.
    pose proof (inv_task _ _ _ _ _ _ _ Hinv i t Ht) as Hti.
    unfold task_inv, crashes in Hti. rewrite Heq, Hm in Hti.
    rewrite bool_decide_false in Hti by done.
    destruct (t_estado t); try done.
    - destruct Hti as [[= ? _] _]. done.
    - by destruct Hti. }
  destruct first as [e|]; [destruct Hres as [_ ->]|destruct Hres as (_ & -> & _)]; done.
Qed.
End Runs.

(** ** The resolver *)

Lemma mapM_lift {A B : Type} (f : A → result B) (l : list A) (w : World) :
  (mapM (λ x, lift (f x)) l w).2 = w ∧
  ∀ ys, (mapM (λ x, lift (f x)) l w).1 = Ok ys ↔ Forall2 (λ x y, f x = Ok y) l ys.
Proof.
  induction l as [|x l [IHw IH]].
  - cbn [mapM]. unfold mret, M_ret. simpl. split; [done|]. intros ys. split.
    + intros ?. simplify_eq. constructor.
    + by intros ->%Forall2_nil_inv_l.
  - cbn [mapM]. unfold mbind, M_bind, mret, M_ret. unfold lift at 1.
    destruct (f x) as [y|e] eqn:Hx; simpl.
    2:{ split; [done|]. intros ys. split; [done|].
        intros (y & ys' & Hy & _ & _)%Forall2_cons_inv_l. congruence. }
    destruct (mapM (λ x0, lift (f x0)) l w) as [[ys'|e] w'] eqn:Hrest; simpl in *.
    + split; [done|]. intros ys. split.
      * intros ?. simplify_eq. constructor; [done|]. by apply IH.
      * intros (y0 & ys0 & Hy & Hys & ->)%Forall2_cons_inv_l.
        apply IH in Hys. simplify_eq. congruence.
    + split; [done|]. intros ys. split; [done|].
      intros (y0 & ys0 & _ & Hys & _)%Forall2_cons_inv_l.
      by apply IH in Hys.
Qed.

(** The resolver writes no file and makes no directory. *)
Lemma obtener_urls_imagenes_frame (env : Env) (self : PixabayDownloaderAsync)
    (consulta : string) (cantidad : Z) (w : World) (r : result (list json)) (w' : World) :
  obtener_urls_imagenes env self consulta cantidad w = (r, w') →
  dirs w' = dirs w ∧ files w' = files w ∧
  readonly w' = readonly w ∧ fsize_limit w' = fsize_limit w.
Proof.
  unfold obtener_urls_imagenes, mbind, M_bind, lift at 1, trace, raise, print, mret, M_ret.
  destruct (ssl_create_default_context env) as [[]|e]; [|by intros [= <- <-]].
  destruct (api env URL_BASE _) as [e|status body]; [by intros [= <- <-]|].
  case_bool_decide; [|by intros [= <- <-]].
  unfold lift at 1. destruct body as [datos|e]; [|by intros [= <- <-]].
  unfold lift at 1. destruct (getitem datos "hits") as [hits|e]; [|by intros [= <- <-]].
  unfold lift at 1. destruct (iter hits) as [imagenes|e]; [|by intros [= <- <-]].
  intros Hm.
  destruct (mapM_lift (λ imagen, getitem imagen "largeImageURL") imagenes
              (record_net (HttpGet (JStr URL_BASE) (parametros self consulta cantidad))
                 (record_net SessionOpened w))) as [Hw _].
  rewrite Hm in Hw. simpl in Hw. by subst w'.
Qed.

(** ** Directories *)

Lemma isdir_mono (p : string) (w w' : World) :
  dirs w ⊆ dirs w' → isdir p w = true → isdir p w' = true.
Proof.
  unfold isdir. intros Hsub.
  rewrite !andb_true_iff, !orb_true_iff, !bool_decide_eq_true.
  intros [? [?|?]]; split; auto.
Qed.

Lemma parent_check_None (p : string) (w : World) :
  parent_check p w = None → dirname p = "" ∨ isdir (dirname p) w = true.
Proof.
  unfold parent_check. case_bool_decide; [by left|].
  destruct (isdir (dirname p) w); [by right|]. by destruct (isfile (dirname p) w).
Qed.

Lemma grows_refl (w : World) : grows w w.
Proof. by repeat split. Qed.

Lemma grows_trans (w1 w2 w3 : World) : grows w1 w2 → grows w2 w3 → grows w1 w3.
Proof.
  intros (Hf&Ho&Hn&Hr&Hd&Hk) (Hf'&Ho'&Hn'&Hr'&Hd'&Hk').
  repeat split; try congruence; [by etrans | auto].
Qed.

Lemma mkdir_spec (p : string) (w : World) (r : result unit) (w' : World) :
  mkdir p w = (r, w') →
  grows w w' ∧ (r = Ok () → isdir p w' = true).
Proof.
  unfold mkdir. case_bool_decide as Hp; [intros [= <- <-]; split; [apply grows_refl|done]|].
  destruct (isdir p w || isfile (norm p) w);
    [intros [= <- <-]; split; [apply grows_refl|done]|].
  destruct (parent_check (norm p) w) as [e|] eqn:Hpar;
    [intros [= <- <-]; split; [apply grows_refl|done]|].
  case_bool_decide; [intros [= <- <-]; split; [apply grows_refl|done]|].
  intros [= <- <-]. split; [repeat split; simpl; try done|].
  - apply union_subseteq_r.
  - intros Hok q Hq. simpl in Hq.
    assert (dirname q = "" ∨ isdir (dirname q) w = true) as [?|Hd].
    { apply elem_of_union in Hq as [->%elem_of_singleton|Hq].
      - by apply parent_check_None.
      - by apply Hok. }
    + by left.
    + right. eapply isdir_mono; [|done]. simpl. apply union_subseteq_r.
  - intros _. unfold isdir. simpl.
    rewrite andb_true_iff, orb_true_iff, !bool_decide_eq_true.
    split; [done|]. right. apply elem_of_union. left. by apply elem_of_singleton.
Qed.

(** The last step of [makedirs]: the [mkdir] of the name itself and the
    pardon [exist_ok] grants. *)
Lemma makedirs_last (name : string) (exist_ok : bool) (w : World)
    (r : result unit) (w' : World) :
  match mkdir name w with
  | (Ok _, w'') => (Ok (), w'')
  | (Raise e, w'') => if exist_ok && isdir name w'' then (Ok (), w'') else (Raise e, w'')
  end = (r, w') →
  grows w w' ∧ (r = Ok () → exist_ok = true → isdir name w' = true).
Proof.
  destruct (mkdir name w) as [[[]|e] w1] eqn:Hmk;
    destruct (mkdir_spec _ _ _ _ Hmk) as [Hg Hdir].
  - intros [= <- <-]. auto.
  - destruct (exist_ok && isdir name w1) eqn:Hex; intros [= <- <-]; split; try done.
    intros _ _. by apply andb_true_iff in Hex as [_ ?].
Qed.

Lemma makedirs_fuel_spec (fuel : nat) (name : string) (exist_ok : bool)
    (w : World) (r : result unit) (w' : World) :
  makedirs_fuel fuel name exist_ok w = (r, w') →
  grows w w' ∧ (r = Ok () → exist_ok = true → isdir name w' = true).
Proof.
  revert name w r w'. induction fuel as [|n IH]; intros name w r w'; simpl.
  - apply makedirs_last.
  - destruct (bool_decide _ && negb _ && negb _); [|apply makedirs_last].
    destruct (makedirs_fuel n (dirname (norm name)) exist_ok w) as [rh wh] eqn:Hh.
    destruct (IH _ _ _ _ Hh) as [Hg _].
    assert (∀ x : result unit * World,
              match x.1 with
              | Ok _ =>
                  match mkdir name x.2 with
                  | (Ok _, w'') => (Ok (), w'')
                  | (Raise e, w'') =>
                      if exist_ok && isdir name w'' then (Ok (), w'') else (Raise e, w'')
                  end
              | Raise e => (Raise e, x.2)
              end = (r, w') →
              grows w x.2 →
              grows w w' ∧ (r = Ok () → exist_ok = true → isdir name w' = true)) as Hstep.
    { intros [[[]|e] wa]; simpl.
      - intros Hl Hga. apply makedirs_last in Hl as [Hgl ?].
        split; [by eapply grows_trans|done].
      - intros [= <- <-] Hga. done. }
    destruct rh as [[]|e].
    + intros Hl. by apply (Hstep (Ok (), wh)).
    + destruct e; intros Hl;
        first [by apply (Hstep (Ok (), wh)) | injection Hl as <- <-; by split].
Qed.

Lemma makedirs_existing (name : string) (w : World) :
  fs_ok w → isdir name w = true → makedirs name true w = (Ok (), w).
Proof.
  intros Hok Hdir. unfold makedirs.
  assert (name ≠ "") as Hne.
  { unfold isdir in Hdir. apply andb_true_iff in Hdir as [Hne _].
    by apply bool_decide_eq_true in Hne. }
  assert (mkdir name w = (Raise FileExistsError, w)) as Hmk.
  { unfold mkdir. rewrite bool_decide_false by done. by rewrite Hdir. }
  destruct (String.length name) as [|n]; simpl.
  - by rewrite Hmk, Hdir.
  - assert (bool_decide (dirname (norm name) ≠ "") && negb (bool_decide (norm name = "/"))
            && negb (exists_path (dirname (norm name)) w) = false) as ->.
    { unfold isdir in Hdir.
      apply andb_true_iff in Hdir as [_ [Hroot|Hin]%orb_true_iff].
      - rewrite Hroot. by rewrite andb_false_r.
      - apply bool_decide_eq_true in Hin.
        destruct (Hok _ Hin) as [Hd|Hd].
        + rewrite (bool_decide_false (dirname (norm name) ≠ "")); [done|]. by intros ?.
        + unfold exists_path. rewrite Hd. simpl. by rewrite andb_false_r. }
    by rewrite Hmk, Hdir.
Qed.

Lemma length_list_ascii_of_string (s : string) :
  length (String.list_ascii_of_string s) = String.length s.
Proof. induction s as [|c s IH]; simpl; [done | by rewrite IH]. Qed.

Lemma length_string_of_list_ascii (l : list ascii) :
  String.length (String.string_of_list_ascii l) = length l.
Proof. induction l as [|c l IH]; simpl; [done | by rewrite IH]. Qed.

Lemma lstrip_slashes_length (l : list ascii) : length (lstrip_slashes l) ≤ length l.
Proof.
  induction l as [|c l IH]; simpl; [done|].
  destruct (is_slash c); simpl; lia.
Qed.

Lemma lstrip_slashes_head (l : list ascii) (c : ascii) (l' : list ascii) :
  lstrip_slashes l = c :: l' → is_slash c = false.
Proof.
  induction l as [|x l IH]; simpl; [done|].
  destruct (is_slash x) eqn:Hx; [done|]. by intros [= <- _].
Qed.

Lemma drop_to_slash_length (l : list ascii) : length (drop_to_slash l) ≤ length l.
Proof.
  induction l as [|c l IH]; simpl; [done|].
  destruct (is_slash c); simpl; lia.
Qed.

(** The directory above a path is a shorter path. *)
Lemma dirname_norm_shorter (p : string) :
  dirname (norm p) ≠ "" → norm p ≠ "/" →
  String.length (dirname (norm p)) < String.length p.
Proof.
  unfold norm.
  destruct (lstrip_slashes (reverse (String.list_ascii_of_string p))) as [|c l] eqn:Hl.
  { case_bool_decide; [|done]. intros Hd. by destruct Hd. }
  intros _ _.
  pose proof (lstrip_slashes_length (reverse (String.list_ascii_of_string p))) as Hlen.
  rewrite Hl, length_reverse, length_list_ascii_of_string in Hlen. simpl in Hlen.
  unfold dirname.
  rewrite String.list_ascii_of_string_of_list_ascii, reverse_involutive.
  simpl. rewrite (lstrip_slashes_head _ _ _ Hl).
  pose proof (drop_to_slash_length l) as Hdrop.
  pose proof (lstrip_slashes_length (drop_to_slash l)) as Hstrip.
  destruct (lstrip_slashes (drop_to_slash l));
    rewrite length_string_of_list_ascii, length_reverse; simpl in *; lia.
Qed.

Lemma isdir_nonempty (p : string) (w : World) : isdir p w = true → p ≠ "".
Proof.
  unfold isdir. intros [Hne _]%andb_true_iff. by apply bool_decide_eq_true in Hne.
Qed.

(** The [mkdir] of a free name in a directory that is there goes through,
    unless the directory is there already. *)
Lemma makedirs_last_free (name : string) (w : World) :
  free w name →
  dirname (norm name) = "" ∨ isdir (dirname (norm name)) w = true →
  ∃ w', match mkdir name w with
        | (Ok _, w'') => (Ok (), w'')
        | (Raise e, w'') => if true && isdir name w'' then (Ok (), w'') else (Raise e, w'')
        end = (Ok (), w').
Proof.
  intros (Hne & _ & Hfile & Hro) Hparent. unfold mkdir.
  rewrite bool_decide_false by done.
  destruct (isdir name w) eqn:Hdir; simpl; [rewrite Hdir; eauto|].
  rewrite Hfile. simpl.
  assert (parent_check (norm name) w = None) as ->.
  { unfold parent_check. destruct Hparent as [-> | ->]; [done|]. by case_bool_decide. }
  rewrite bool_decide_false by done. eauto.
Qed.

Lemma makedirs_last_there (name : string) (w : World) :
  isdir name w = true →
  match mkdir name w with
  | (Ok _, w'') => (Ok (), w'')
  | (Raise e, w'') => if true && isdir name w'' then (Ok (), w'') else (Raise e, w'')
  end = (Ok (), w).
Proof.
  intros Hdir. unfold mkdir.
  rewrite bool_decide_false by (by eapply isdir_nonempty).
  rewrite Hdir. simpl. by rewrite Hdir.
Qed.

(** In a file system whose directories lie in directories, a directory
    that can be made is made: [makedirs] returns. *)
Lemma makedirs_fuel_makeable (w : World) (name : string) :
  fs_ok w → makeable w name →
  ∀ fuel, String.length name ≤ fuel →
    ∃ w', makedirs_fuel fuel name true w = (Ok (), w').
Proof.
  intros Hok Hmk. induction Hmk as [p Hdir|p Hfree Hparent|p Hfree Hhead Hmk IH];
    intros fuel Hfuel.
  - exists w. destruct fuel as [|n]; simpl; [by apply makedirs_last_there|].
    assert (bool_decide (dirname (norm p) ≠ "") && negb (bool_decide (norm p = "/"))
            && negb (exists_path (dirname (norm p)) w) = false) as ->.
    { pose proof Hdir as Hdir'. unfold isdir in Hdir'.
      apply andb_true_iff in Hdir' as [_ [Hroot|Hin]%orb_true_iff].
      - rewrite Hroot. by rewrite andb_false_r.
      - apply bool_decide_eq_true in Hin.
        destruct (Hok _ Hin) as [Hd|Hd].
        + rewrite (bool_decide_false (dirname (norm p) ≠ "")); [done|]. by intros ?.
        + unfold exists_path. rewrite Hd. simpl. by rewrite andb_false_r. }
    by apply makedirs_last_there.
  - destruct fuel as [|n]; simpl; [by apply makedirs_last_free|].
    assert (bool_decide (dirname (norm p) ≠ "") && negb (bool_decide (norm p = "/"))
            && negb (exists_path (dirname (norm p)) w) = false) as ->.
    { destruct Hparent as [Hd|Hd].
      - rewrite (bool_decide_false (dirname (norm p) ≠ "")); [done|]. by intros ?.
      - unfold exists_path. rewrite Hd. simpl. by rewrite andb_false_r. }
    by apply makedirs_last_free.
  - destruct fuel as [|n].
    { destruct Hfree as [Hne _]. destruct p; [done|simpl in Hfuel; lia]. }
    simpl.
    destruct (bool_decide (dirname (norm p) ≠ "") && negb (bool_decide (norm p = "/"))
              && negb (exists_path (dirname (norm p)) w)) eqn:Hcond.
    + apply andb_true_iff in Hcond as [[_ Hroot]%andb_true_iff _].
      apply negb_true_iff, bool_decide_eq_false in Hroot.
      destruct (IH n) as [w1 Hrec].
      { pose proof (dirname_norm_shorter p Hhead Hroot). lia. }
      rewrite Hrec.
      destruct (makedirs_fuel_spec _ _ _ _ _ _ Hrec) as [(Hf&_&_&Hr&_) Hdir].
      apply makedirs_last_free.
      * destruct Hfree as (?&?&?&?). unfold free, isfile in *. by rewrite Hf, Hr.
      * right. by apply Hdir.
    + apply andb_false_iff in Hcond as [[Hd|Hroot]%andb_false_iff|Hex].
      * apply bool_decide_eq_false in Hd. by destruct Hd.
      * apply negb_false_iff, bool_decide_eq_true in Hroot.
        exists w. apply makedirs_last_there. unfold isdir.
        destruct Hfree as [Hne _]. rewrite bool_decide_true by done.
        by rewrite Hroot.
      * apply negb_false_iff in Hex. unfold exists_path in Hex.
        apply orb_true_iff in Hex as [Hd|Hfile].
        -- apply makedirs_last_free; [done|by right].
        -- clear IH. inversion Hmk as [q Hq|q Hq _|q Hq _ _]; subst.
           ++ apply makedirs_last_free; [done|by right].
           ++ destruct Hq as (_&Hq&_). unfold isfile in *. congruence.
           ++ destruct Hq as (_&Hq&_). unfold isfile in *. congruence.
Qed.

Lemma init_spec (k d : string) (w : World) (r : result PixabayDownloaderAsync) (w' : World) :
  __init__ k d w = (r, w') →
  grows w w' ∧ ∀ self, r = Ok self → self = mkDownloader k d ∧ isdir d w' = true.
Proof.
  unfold __init__, mbind, M_bind, makedirs, mret, M_ret.
  destruct (makedirs_fuel (String.length d) d true w) as [[[]|e] w1] eqn:Hmk;
    destruct (makedirs_fuel_spec _ _ _ _ _ _ Hmk) as [Hg Hdir]; intros [= <- <-].
  - split; [done|]. intros self [= <-]. auto.
  - split; [done|]. done.
Qed.

(** ** The coroutine and its state machine *)


(** ** The resolver, case by case *)

Lemma obtener_urls_imagenes_unfold (env : Env) (self : PixabayDownloaderAsync)
    (consulta : string) (cantidad : Z) (w : World) :
  session_ready env →
  obtener_urls_imagenes env self consulta cantidad w
  = match api env URL_BASE (parametros self consulta cantidad) with
    | NoResponse e => raise e
    | Response status body =>
        if bool_decide (status = 200) then
          datos ← lift body;
          hits ← lift (getitem datos "hits");
          imagenes ← lift (iter hits);
          mapM (λ imagen, lift (getitem imagen "largeImageURL")) imagenes
        else
          print ("Error en la solicitud a la API: " +:+ pretty status);;
          mret []
    end (record_net (HttpGet (JStr URL_BASE) (parametros self consulta cantidad)) (started w)).
Proof.
  unfold session_ready, obtener_urls_imagenes. intros Hssl.
  unfold mbind at 1, M_bind at 1, lift at 1. rewrite Hssl. reflexivity.
Qed.

(** ** Two runs *)

(** Two images resolved and downloaded, the second finishing first. *)
Example run_all_ok :
  ∃ w', main env_all_ok [0; 1; 1; 1; 0; 0] world_empty = Some (Ok (), w') ∧
        files w' = {[ "imagenes_descargadas/imagen_1.jpg" := jpeg;
                      "imagenes_descargadas/imagen_2.jpg" := jpeg ]} ∧
        stdout w' = ["Descarga completada: imagen_2.jpg";
                     "Descarga completada: imagen_1.jpg";
                     "Todas las imágenes han sido descargadas."].
Proof. eexists. split; [vm_compute; reflexivity|]. split; reflexivity. Qed.

(** Five images of which the third answers 404: four files, named after
    the positions in the list, and one line of failure. *)
Example run_third_404 :
  ∃ w', fetch_stage env_third_404 demo_self (round_robin 5) five_urls demo_world
        = Some (Ok (), w') ∧
        dom (files w') = {[ "imagenes_descargadas/imagen_1.jpg";
                            "imagenes_descargadas/imagen_2.jpg";
                            "imagenes_descargadas/imagen_4.jpg";
                            "imagenes_descargadas/imagen_5.jpg" ]} ∧
        "Error descargando imagen_3.jpg: 404" ∈ stdout w'.
Proof.
  eexists. split; [vm_compute; reflexivity|]. split; [reflexivity|].
  apply list_elem_of_In. vm_compute. tauto.
Qed.

(** * The claims *)

(** C4: when the list of resolved references is empty, the download stage
    does nothing on the network (the trace of sessions and requests stays
    as the resolver left it: no session is opened, no task is started),
    writes no file, prints "No se encontraron imágenes para descargar."
    and returns at once; the same holds of the whole method when the
    resolver returns the empty list. *)
Theorem C4_nothing_to_download (env : Env) (sched : list nat)
    (self : PixabayDownloaderAsync) (w : World) :
  (∃ w', fetch_stage env self sched [] w = Some (Ok (), w') ∧
         net w' = net w ∧ files w' = files w ∧ dirs w' = dirs w ∧
         stdout w' = stdout w ++ ["No se encontraron imágenes para descargar."]) ∧
  (∀ consulta cantidad w1,
     obtener_urls_imagenes env self consulta cantidad w = (Ok [], w1) →
     ∃ w', descargar_imagenes_concurrentes env sched self consulta cantidad w
           = Some (Ok (), w') ∧
           net w' = net w1 ∧ files w' = files w1 ∧ dirs w' = dirs w1 ∧
           stdout w' = stdout w1 ++ ["No se encontraron imágenes para descargar."]).
Proof.
  split.
  - eexists. split; [reflexivity|]. done.
  - intros consulta cantidad w1 Hres. unfold descargar_imagenes_concurrentes.
    rewrite Hres. eexists. split; [reflexivity|]. done.
Qed.

Lemma C4_nothing_to_download_witness :
  ∃ w', descargar_imagenes_concurrentes env_api_no_hits [2; 0; 1] demo_self
          "zzzznotfound" 5 demo_world = Some (Ok (), w') ∧
        files w' = ∅ ∧
        stdout w' = ["No se encontraron imágenes para descargar."].
Proof.
  destruct (C4_nothing_to_download env_api_no_hits [2; 0; 1] demo_self demo_world)
    as [_ Hrun].
  edestruct (Hrun "zzzznotfound" 5%Z) as (w' & Hw' & _ & Hf & _ & Ho).
  { vm_compute. reflexivity. }
  exists w'. split; [exact Hw'|]. split; [exact Hf | exact Ho].
Defined.

(** C7: when the search API answers with a status other than 200, the
    resolver prints the status code and returns the empty list, without an
    exception; the run then ends normally with the line that there is
    nothing to download, and no file is written. *)
Theorem C7_api_status_is_soft_failure (env : Env) (self : PixabayDownloaderAsync)
    (consulta : string) (cantidad : Z) (w : World)
    (status : nat) (body : result json) :
  session_ready env →
  api env URL_BASE (parametros self consulta cantidad) = Response status body →
  status ≠ 200 →
  ∃ w1, obtener_urls_imagenes env self consulta cantidad w = (Ok [], w1) ∧
        stdout w1 = stdout w ++ ["Error en la solicitud a la API: " +:+ pretty status] ∧
        files w1 = files w ∧
        ∀ sched, ∃ w2,
          descargar_imagenes_concurrentes env sched self consulta cantidad w
          = Some (Ok (), w2) ∧
          stdout w2 = stdout w1 ++ ["No se encontraron imágenes para descargar."] ∧
          files w2 = files w ∧ net w2 = net w1.
Proof.
  intros Hssl Hapi Hs.
  pose proof (obtener_urls_imagenes_unfold env self consulta cantidad w Hssl) as Hres.
  rewrite Hapi, bool_decide_false in Hres by done.
  eexists. split; [exact Hres|]. split; [done|]. split; [done|].
  intros sched. unfold descargar_imagenes_concurrentes. rewrite Hres.
  eexists. split; [reflexivity|]. done.
Qed.

Lemma C7_api_status_is_soft_failure_witness :
  ∃ w1, obtener_urls_imagenes env_api_403 demo_self "gatos" 50 demo_world = (Ok [], w1) ∧
        stdout w1 = ["Error en la solicitud a la API: 403"].
Proof.
  destruct (C7_api_status_is_soft_failure env_api_403 demo_self "gatos" 50 demo_world
              403 (Raise JSONDecodeError)) as (w1 & Hres & Ho & _).
  - reflexivity.
  - reflexivity.
  - lia.
  - exists w1. split; [exact Hres | exact Ho].
Defined.

(** C6: when the request to the search API fails in transport (the TLS
    context cannot be built, or no response arrives: DNS, TLS, timeout) or
    the body of a 200 response is not JSON, the resolver raises; it returns
    no list, prints nothing and no download is attempted: the exception
    leaves [descargar_imagenes_concurrentes] and, through it, [main].  And
    the resolver never returns part of a list: what it returns is empty,
    after a status other than 200, or has one URL for every item of
    [hits]. *)
Theorem C6_resolution_failure_is_fatal (env : Env) (self : PixabayDownloaderAsync)
    (consulta : string) (cantidad : Z) (w : World) :
  (∀ e,
     ssl_create_default_context env = Raise e
     ∨ (session_ready env ∧
        api env URL_BASE (parametros self consulta cantidad) = NoResponse e)
     ∨ (session_ready env ∧
        api env URL_BASE (parametros self consulta cantidad) = Response 200 (Raise e)) →
     ∃ w1, obtener_urls_imagenes env self consulta cantidad w = (Raise e, w1) ∧
           stdout w1 = stdout w ∧ files w1 = files w ∧
           (∀ sched,
              descargar_imagenes_concurrentes env sched self consulta cantidad w
              = Some (Raise e, w1)) ∧
           (∀ sched w0,
              self = mkDownloader "PON_AQUÍ_TU_API_KEY" "imagenes_descargadas" →
              consulta = "gatos" → cantidad = 50%Z →
              __init__ "PON_AQUÍ_TU_API_KEY" "imagenes_descargadas" w0 = (Ok self, w) →
              main env sched w0 = Some (Raise e, w1))) ∧
  (∀ urls w', obtener_urls_imagenes env self consulta cantidad w = (Ok urls, w') →
     (∃ status body,
        api env URL_BASE (parametros self consulta cantidad) = Response status body ∧
        status ≠ 200 ∧ urls = [])
     ∨ (∃ datos hits imagenes,
          api env URL_BASE (parametros self consulta cantidad) = Response 200 (Ok datos) ∧
          getitem datos "hits" = Ok hits ∧ iter hits = Ok imagenes ∧
          Forall2 (λ imagen url, getitem imagen "largeImageURL" = Ok url) imagenes urls)).
Proof.
  split.
  - intros e Hfail.
    assert (∃ w1, obtener_urls_imagenes env self consulta cantidad w = (Raise e, w1) ∧
                  stdout w1 = stdout w ∧ files w1 = files w) as (w1 & Hres & Ho & Hf).
    { destruct Hfail as [Hssl|[[Hssl Hapi]|[Hssl Hapi]]].
      - exists w. split; [|done].
        unfold obtener_urls_imagenes. unfold mbind at 1, M_bind at 1, lift at 1.
        by rewrite Hssl.
      - pose proof (obtener_urls_imagenes_unfold env self consulta cantidad w Hssl) as Hres.
        rewrite Hapi in Hres. eexists. split; [exact Hres|done].
      - pose proof (obtener_urls_imagenes_unfold env self consulta cantidad w Hssl) as Hres.
        rewrite Hapi in Hres. eexists. split; [exact Hres|done]. }
    exists w1. split_and!; try done.
    + intros sched. unfold descargar_imagenes_concurrentes. by rewrite Hres.
    + intros sched w0 -> -> -> Hinit. unfold main. rewrite Hinit.
      unfold descargar_imagenes_concurrentes. by rewrite Hres.
  - intros urls w'.
    destruct (ssl_create_default_context env) as [[]|e] eqn:Hssl.
    2:{ unfold obtener_urls_imagenes. unfold mbind at 1, M_bind at 1, lift at 1.
        by rewrite Hssl. }
    rewrite (obtener_urls_imagenes_unfold env self consulta cantidad w Hssl).
    destruct (api env URL_BASE (parametros self consulta cantidad))
      as [e|status body]; [done|].
    case_bool_decide as Hs.
    + subst status. intros Hres. right.
      unfold mbind at 1, M_bind at 1, lift at 1 in Hres.
      destruct body as [datos|e]; [|done].
      unfold mbind at 1, M_bind at 1, lift at 1 in Hres.
      destruct (getitem datos "hits") as [hits|e] eqn:Hhits; [|done].
      unfold mbind at 1, M_bind at 1, lift at 1 in Hres.
      destruct (iter hits) as [imagenes|e] eqn:Hiter; [|done].
      exists datos, hits, imagenes. split_and!; try done.
      set (w2 := record_net _ _) in Hres.
      destruct (mapM_lift (λ imagen, getitem imagen "largeImageURL") imagenes w2)
        as [_ Hok].
      apply Hok. by rewrite Hres.
    + intros [= <- _]. left. eauto.
Qed.

Lemma C6_resolution_failure_is_fatal_witness :
  (∃ w1, obtener_urls_imagenes env_api_down demo_self "gatos" 50 demo_world
         = (Raise ClientError, w1)) ∧
  (∃ w1, obtener_urls_imagenes env_api_garbage demo_self "gatos" 50 demo_world
         = (Raise JSONDecodeError, w1)).
Proof.
  split.
  - destruct (C6_resolution_failure_is_fatal env_api_down demo_self "gatos" 50
                demo_world) as [Hfatal _].
    destruct (Hfatal ClientError) as (w1 & Hres & _).
    + right. left. split; reflexivity.
    + exists w1. exact Hres.
  - destruct (C6_resolution_failure_is_fatal env_api_garbage demo_self "gatos" 50
                demo_world) as [Hfatal _].
    destruct (Hfatal JSONDecodeError) as (w1 & Hres & _).
    + right. right. split; reflexivity.
    + exists w1. exact Hres.
Defined.

(** C3, as amended: for every requested count [K] and every 200 response
    whose JSON body is an object with a [hits] array of objects that each
    have a [largeImageURL], the resolver returns exactly one URL per object
    of [hits], in the order of the response; that is at most [K] whenever
    the API returned at most [K] hits.  The resolver passes [K] on as
    [per_page] and does not cut the list itself. *)
Theorem C3_one_url_per_hit (env : Env) (self : PixabayDownloaderAsync)
    (consulta : string) (K : Z) (w : World)
    (datos : json) (hits urls : list json) :
  session_ready env →
  api env URL_BASE (parametros self consulta K) = Response 200 (Ok datos) →
  getitem datos "hits" = Ok (JArr hits) →
  Forall2 (λ imagen url, getitem imagen "largeImageURL" = Ok url) hits urls →
  (∃ w', obtener_urls_imagenes env self consulta K w = (Ok urls, w')) ∧
  length urls = length hits ∧
  ((Z.of_nat (length hits) ≤ K)%Z → (Z.of_nat (length urls) ≤ K)%Z).
Proof.
  intros Hssl Hapi Hhits Hall.
  pose proof (Forall2_length _ _ _ Hall) as Hlen.
  split; [|split; [done|by rewrite Hlen]].
  pose proof (obtener_urls_imagenes_unfold env self consulta K w Hssl) as Hres.
  rewrite Hapi, bool_decide_true in Hres by done.
  unfold mbind at 1, M_bind at 1, lift at 1 in Hres.
  unfold mbind at 1, M_bind at 1, lift at 1 in Hres. rewrite Hhits in Hres.
  unfold mbind at 1, M_bind at 1, lift at 1 in Hres. simpl in Hres.
  set (w2 := record_net _ _) in Hres.
  destruct (mapM_lift (λ imagen, getitem imagen "largeImageURL") hits w2) as [Hw Hok].
  apply Hok in Hall.
  destruct (mapM _ hits w2) as [r w3]. simpl in *. subst r w3.
  exists w2. exact Hres.
Qed.

Lemma C3_one_url_per_hit_witness :
  (∃ w', obtener_urls_imagenes env_all_ok demo_self "gatos" 5 demo_world
         = (Ok two_urls, w')) ∧
  length two_urls = 2.
Proof.
  destruct (C3_one_url_per_hit env_all_ok demo_self "gatos" 5 demo_world
              (hits_body ["https://cdn/a.jpg"; "https://cdn/b.jpg"])
              (map hit ["https://cdn/a.jpg"; "https://cdn/b.jpg"]) two_urls)
    as (Hres & Hlen & _).
  - reflexivity.
  - reflexivity.
  - reflexivity.
  - repeat constructor.
  - split; [exact Hres | exact Hlen].
Defined.

(** C3 as stated fails: three images are asked for, the API answers 200
    with four hits, and the resolver returns the four URLs. *)
Lemma C3_counterexample :
  session_ready env_api_four_hits ∧
  api env_api_four_hits URL_BASE (parametros demo_self "gatos" 3)
  = Response 200 (Ok (hits_body four_urls)) ∧
  (obtener_urls_imagenes env_api_four_hits demo_self "gatos" 3 demo_world).1
  = Ok (map JStr four_urls) ∧
  ¬ (Z.of_nat (length (map JStr four_urls)) ≤ 3)%Z.
Proof.
  split; [reflexivity|]. split; [reflexivity|]. split; [reflexivity|].
  simpl. lia.
Qed.

(** A task that cannot come to its end never has: at no point of any
    schedule is it in the state [Returned]. *)
Lemma crashed_never_returns (env : Env) (self : PixabayDownloaderAsync)
    (urls : list json) (w : World) (i : nat) (url : json) (sched : list nat) (t : tarea) :
  urls !! i = Some url → crashes env self w i url →
  (run_loop env self sched (lanzar urls) None (started w)).1.1 !! i = Some t →
  t_estado t ≠ Returned.
Proof.
  intros Hi Hcr Ht Hst.
  pose proof (batch_inv_run env self urls (started w) sched _ _ _
                (batch_inv_init env self urls (started w))) as Hinv.
  destruct (inv_static _ _ _ _ _ _ _ Hinv i t Ht) as [Hurl _].
  assert (t_url t = url) as Heq by congruence.
  destruct (returned_task env self _ _ i t (inv_task _ _ _ _ _ _ _ Hinv i t Ht) Hst)
    as [Hno _].
  apply Hno. apply crashes_started. by rewrite Heq.
Qed.

(** C2, as amended: for every non-empty list of references of which no
    download raises (every request gets a response, every body of a 200
    response can be read and its file written), the download stage returns
    under every schedule that lets the tasks finish, it never raises, and
    when it has returned every task has returned before it: the output has
    exactly one line per task, in the order in which the tasks finished,
    followed by the closing line.  The method itself returns [None]; the
    outcomes are the printed lines. *)
Theorem C2_barrier_one_outcome_per_task (env : Env) (self : PixabayDownloaderAsync)
    (urls : list json) (w : World) :
  urls ≠ [] →
  session_ready env →
  (∀ i url, urls !! i = Some url → ¬ crashes env self w i url) →
  (∀ sched, complete (length urls) sched →
     ∃ w', fetch_stage env self sched urls w = Some (Ok (), w')) ∧
  (∀ sched r w', fetch_stage env self sched urls w = Some (r, w') →
     r = Ok () ∧
     (∃ order, order ≡ₚ seq 0 (length urls) ∧
        stdout w' = stdout w ++ map (outcome_line env urls) order
                             ++ ["Todas las imágenes han sido descargadas."]) ∧
     (∀ i t, (run_loop env self sched (lanzar urls) None (started w)).1.1 !! i = Some t →
             t_estado t = Returned)).
Proof.
  intros Hne Hssl Hok. split.
  - intros sched Hc.
    destruct (fetch_stage_complete env self urls sched w Hc) as (r & w' & Hrun).
    rewrite (fetch_stage_no_crash env self urls sched w r w' Hssl Hok Hrun) in Hrun.
    eauto.
  - intros sched r w' Hrun.
    pose proof (fetch_stage_no_crash env self urls sched w r w' Hssl Hok Hrun) as ->.
    split; [done|]. split; [by eapply fetch_stage_log|].
    destruct (fetch_stage_cases env self urls sched w _ w' Hne Hrun)
      as [(e & _ & ? & _)|(_ & ts & first & w2 & Hloop & _ & Hres)]; [done|].
    rewrite Hloop. simpl. destruct first as [e|]; [by destruct Hres|].
    by destruct Hres as (_ & _ & ?).
Qed.

Lemma C2_barrier_one_outcome_per_task_witness :
  ∃ w', fetch_stage env_second_404 demo_self [1; 0; 1; 0; 0; 1] two_urls demo_world
        = Some (Ok (), w') ∧
        stdout w' = ["Error descargando imagen_2.jpg: 404";
                     "Descarga completada: imagen_1.jpg";
                     "Todas las imágenes han sido descargadas."].
Proof.
  destruct (C2_barrier_one_outcome_per_task env_second_404 demo_self two_urls demo_world)
    as [Hret _].
  - discriminate.
  - reflexivity.
  - intros [|[|i]] url [= <-]; vm_compute; intros [_ H]; discriminate.
  - destruct (Hret [1; 0; 1; 0; 0; 1]) as (w' & Hrun).
    + intros [|[|i]] Hi; simpl in Hi; [vm_compute; lia..|lia].
    + exists w'. split; [exact Hrun|].
      assert (Some (Ok (), w')
              = fetch_stage env_second_404 demo_self [1; 0; 1; 0; 0; 1] two_urls demo_world)
        as Heq by (symmetry; exact Hrun).
      vm_compute in Heq. injection Heq as ->. reflexivity.
Defined.

(** C2 as stated fails: of two downloads the second times out while the
    first is still waiting for its response; the stage does not return but
    raises, no outcome has been printed, and the first task is not at its
    end. *)
Lemma C2_counterexample :
  ∃ w', fetch_stage env_second_times_out demo_self [0; 1; 1] two_urls demo_world
        = Some (Raise TimeoutError, w') ∧
        stdout w' = [] ∧
        t_estado <$> (run_loop env_second_times_out demo_self [0; 1; 1]
                        (lanzar two_urls) None (started demo_world)).1.1 !! 0
        = Some AwaitingResponse.
Proof.
  eexists. split; [vm_compute; reflexivity|]. split; reflexivity.
Qed.

(** C1, as amended: an answer with a status other than 200 stays with its
    task.  Whatever the statuses, the stage returns under every schedule
    that lets the tasks finish, provided no task raises; and when it has
    returned, every task answered 200 has written its file and printed its
    line of success, every task answered otherwise has printed its line of
    failure and left its file alone.  A transport failure (no response, or
    a body that cannot be read) is not caught by the task: the stage then
    never returns normally, every schedule that lets the tasks finish ends
    in an exception, and the failed task prints no outcome. *)
Theorem C1_status_failures_are_isolated (env : Env) (self : PixabayDownloaderAsync)
    (urls : list json) (w : World) :
  (session_ready env →
   (∀ i url, urls !! i = Some url → ¬ crashes env self w i url) →
   ∀ sched, complete (length urls) sched →
     ∃ w', fetch_stage env self sched urls w = Some (Ok (), w')) ∧
  (∀ sched w', fetch_stage env self sched urls w = Some (Ok (), w') →
     ∀ i url, urls !! i = Some url →
       ∃ status body, media env i url = Response status body ∧
         (status = 200 →
            ∃ c, body = Ok c ∧ files w' !! ruta self i = Some c ∧
                 ("Descarga completada: " +:+ nombre i) ∈ stdout w') ∧
         (status ≠ 200 →
            ("Error descargando " +:+ nombre i +:+ ": " +:+ pretty status) ∈ stdout w' ∧
            files w' !! ruta self i = files w !! ruta self i)) ∧
  (∀ i url e, urls !! i = Some url →
     media env i url = NoResponse e ∨ media env i url = Response 200 (Raise e) →
     (∀ sched r w', fetch_stage env self sched urls w = Some (r, w') → ∃ e', r = Raise e') ∧
     (∀ sched, complete (length urls) sched →
        ∃ e' w', fetch_stage env self sched urls w = Some (Raise e', w')) ∧
     (∀ sched t,
        (run_loop env self sched (lanzar urls) None (started w)).1.1 !! i = Some t →
        t_estado t ≠ Returned)).
Proof.
  split_and!.
  - intros Hssl Hok sched Hc.
    destruct (fetch_stage_complete env self urls sched w Hc) as (r & w' & Hrun).
    rewrite (fetch_stage_no_crash env self urls sched w r w' Hssl Hok Hrun) in Hrun.
    eauto.
  - intros sched w' Hrun i url Hi.
    destruct (fetch_stage_outcome env self urls sched w w' i url Hi Hrun)
      as (Hline & status & body & Hm & Hf).
    exists status, body. split; [done|].
    unfold outcome_line in Hline. rewrite Hi, Hm in Hline.
    split; intros Hs.
    + rewrite bool_decide_true in Hline, Hf by done.
      destruct Hf as (c & -> & Hf). eauto.
    + rewrite bool_decide_false in Hline, Hf by done. done.
  - intros i url e Hi Hm.
    assert (crashes env self w i url) as Hcr.
    { unfold crashes. by destruct Hm as [-> | ->]. }
    split_and!.
    + intros sched r w'. by apply fetch_stage_crash with i url.
    + intros sched Hc.
      destruct (fetch_stage_complete env self urls sched w Hc) as (r & w' & Hrun).
      destruct (fetch_stage_crash env self urls sched w r w' i url Hi Hcr Hrun) as [e' ->].
      eauto.
    + intros sched t. by apply crashed_never_returns with url.
Qed.

Lemma C1_status_failures_are_isolated_witness :
  ∃ w', fetch_stage env_second_404 demo_self [0; 1; 1; 0; 0; 1] two_urls demo_world
        = Some (Ok (), w') ∧
        files w' !! "imagenes_descargadas/imagen_1.jpg" = Some jpeg ∧
        files w' !! "imagenes_descargadas/imagen_2.jpg" = None ∧
        "Error descargando imagen_2.jpg: 404" ∈ stdout w'.
Proof.
  destruct (C1_status_failures_are_isolated env_second_404 demo_self two_urls demo_world)
    as (Hret & Hout & _).
  destruct (Hret eq_refl) with (sched := [0; 1; 1; 0; 0; 1]) as (w' & Hrun).
  - intros [|[|i]] url [= <-]; vm_compute; intros [_ H]; discriminate.
  - intros [|[|i]] Hi; simpl in Hi; [vm_compute; lia..|lia].
  - exists w'. split; [exact Hrun|].
    destruct (Hout _ _ Hrun 0 _ eq_refl) as (s0 & b0 & Hm0 & Hok0 & _).
    destruct (Hout _ _ Hrun 1 _ eq_refl) as (s1 & b1 & Hm1 & _ & Hno1).
    injection Hm0 as <- <-. injection Hm1 as <- <-.
    destruct (Hok0 eq_refl) as (c & [= <-] & Hf0 & _).
    destruct Hno1 as [Hline Hf1]; [lia|].
    split; [exact Hf0|]. split; [exact Hf1 | exact Hline].
Defined.

(** C1 as stated fails: the first of two downloads cannot connect.  The
    exception is not turned into an outcome of that task: it leaves
    [gather] and the stage.  The second download, whose request would have
    succeeded, has printed nothing and written nothing. *)
Lemma C1_counterexample :
  media env_first_unreachable 0 (JStr "https://cdn/a.jpg") = NoResponse ClientError ∧
  media env_first_unreachable 1 (JStr "https://cdn/b.jpg") = Response 200 (Ok jpeg) ∧
  writable demo_world (ruta demo_self 1) jpeg = true ∧
  ∃ w', fetch_stage env_first_unreachable demo_self [0; 1; 0] two_urls demo_world
        = Some (Raise ClientError, w') ∧
        stdout w' = [] ∧
        files w' !! ruta demo_self 1 = None.
Proof.
  split; [reflexivity|]. split; [reflexivity|]. split; [vm_compute; reflexivity|].
  eexists. split; [vm_compute; reflexivity|]. split; reflexivity.
Qed.

(** C9, as amended: a failure of the file system in a download task (the
    file cannot be opened or written) is not caught.  The exception leaves
    the task: the stage never returns normally, every schedule that lets
    the tasks finish ends in an exception, and the task prints no outcome.
    A failure to make the output directory is raised by the constructor,
    before any request, and ends [main]. *)
Theorem C9_filesystem_failure_propagates (env : Env) (self : PixabayDownloaderAsync)
    (urls : list json) (w : World) :
  (∀ i url c, urls !! i = Some url →
     media env i url = Response 200 (Ok c) →
     writable w (ruta self i) c = false →
     (∀ sched r w', fetch_stage env self sched urls w = Some (r, w') → ∃ e, r = Raise e) ∧
     (∀ sched, complete (length urls) sched →
        ∃ e w', fetch_stage env self sched urls w = Some (Raise e, w')) ∧
     (∀ sched t,
        (run_loop env self sched (lanzar urls) None (started w)).1.1 !! i = Some t →
        t_estado t ≠ Returned)) ∧
  (∀ sched e w1,
     makedirs "imagenes_descargadas" true w = (Raise e, w1) →
     main env sched w = Some (Raise e, w1) ∧ net w1 = net w ∧ stdout w1 = stdout w).
Proof.
  split.
  - intros i url c Hi Hm Hw.
    assert (crashes env self w i url) as Hcr.
    { unfold crashes. by rewrite Hm. }
    split_and!.
    + intros sched r w'. by apply fetch_stage_crash with i url.
    + intros sched Hc.
      destruct (fetch_stage_complete env self urls sched w Hc) as (r & w' & Hrun).
      destruct (fetch_stage_crash env self urls sched w r w' i url Hi Hcr Hrun) as [e' ->].
      eauto.
    + intros sched t. by apply crashed_never_returns with url.
  - intros sched e w1 Hmk.
    destruct (makedirs_fuel_spec _ _ _ _ _ _ Hmk) as [(_ & Ho & Hn & _) _].
    unfold main, __init__, mbind, M_bind. by rewrite Hmk.
Qed.

Lemma C9_filesystem_failure_propagates_witness :
  ∃ e w', fetch_stage env_all_ok demo_self (round_robin 2) two_urls world_name_taken
          = Some (Raise e, w').
Proof.
  destruct (C9_filesystem_failure_propagates env_all_ok demo_self two_urls world_name_taken)
    as [Htask _].
  destruct (Htask 0 (JStr "https://cdn/a.jpg") jpeg) as (_ & Hraise & _).
  - reflexivity.
  - reflexivity.
  - vm_compute. reflexivity.
  - apply Hraise. apply round_robin_complete.
Defined.

(** C9 as stated fails: the name of the first image is taken by a
    directory, so its file cannot be opened.  The stage ends with
    [IsADirectoryError] instead of an outcome for that task; the second
    download, which was under way, has printed and written nothing. *)
Lemma C9_counterexample :
  media env_all_ok 0 (JStr "https://cdn/a.jpg") = Response 200 (Ok jpeg) ∧
  media env_all_ok 1 (JStr "https://cdn/b.jpg") = Response 200 (Ok jpeg) ∧
  writable world_name_taken (ruta demo_self 1) jpeg = true ∧
  ∃ w', fetch_stage env_all_ok demo_self [0; 1; 0; 0] two_urls world_name_taken
        = Some (Raise IsADirectoryError, w') ∧
        stdout w' = [] ∧
        files w' !! ruta demo_self 1 = None.
Proof.
  split; [reflexivity|]. split; [reflexivity|]. split; [vm_compute; reflexivity|].
  eexists. split; [vm_compute; reflexivity|]. split; reflexivity.
Qed.

(** C5: the task at position [i] writes the body it received to
    [imagen_{i+1}.jpg] in the output directory, and the stage writes
    nowhere else.  The files after a run that returned do not depend on
    the schedule, that is on the order in which the tasks finished;
    different positions have different files; and a second run over the
    same list writes the same names again, the new bodies over the old. *)
Theorem C5_deterministic_naming (env : Env) (self : PixabayDownloaderAsync)
    (urls : list json) (w : World) :
  (∀ sched w', fetch_stage env self sched urls w = Some (Ok (), w') →
     (∀ i url c, urls !! i = Some url → media env i url = Response 200 (Ok c) →
        files w' !! os_path_join (directorio_imagenes self)
                      ("imagen_" +:+ pretty (i + 1) +:+ ".jpg") = Some c) ∧
     (∀ p, (∀ i, i < length urls → p ≠ ruta self i) → files w' !! p = files w !! p)) ∧
  (∀ sched1 sched2 w1 w2,
     fetch_stage env self sched1 urls w = Some (Ok (), w1) →
     fetch_stage env self sched2 urls w = Some (Ok (), w2) →
     files w1 = files w2) ∧
  (∀ i j, ruta self i = ruta self j → i = j) ∧
  (∀ env2 sched1 sched2 w1 w2,
     fetch_stage env self sched1 urls w = Some (Ok (), w1) →
     fetch_stage env2 self sched2 urls w1 = Some (Ok (), w2) →
     (∀ i url c, urls !! i = Some url → media env2 i url = Response 200 (Ok c) →
        files w2 !! ruta self i = Some c) ∧
     (∀ p, (∀ i, i < length urls → p ≠ ruta self i) → files w2 !! p = files w !! p)).
Proof.
  assert (∀ env' sched w0 w', fetch_stage env' self sched urls w0 = Some (Ok (), w') →
            ∀ i url c, urls !! i = Some url → media env' i url = Response 200 (Ok c) →
              files w' !! ruta self i = Some c) as Hwritten.
  { intros env' sched w0 w' Hrun i url c Hi Hm.
    destruct (fetch_stage_outcome env' self urls sched w0 w' i url Hi Hrun)
      as (_ & status & body & Hm' & Hf).
    rewrite Hm in Hm'. injection Hm' as <- <-.
    rewrite bool_decide_true in Hf by done. by destruct Hf as (c' & [= <-] & Hf). }
  split_and!.
  - intros sched w' Hrun. split.
    + intros i url c Hi Hm. by apply (Hwritten env sched w w' Hrun i url c).
    + by apply (fetch_stage_frame env self urls sched w (Ok ()) w').
  - intros sched1 sched2 w1 w2 Hrun1 Hrun2. apply map_eq. intros p.
    destruct (decide (p ∈ ruta self <$> seq 0 (length urls))) as [Hin|Hout].
    + apply list_elem_of_fmap in Hin as (i & -> & Hi%elem_of_seq).
      destruct (lookup_lt_is_Some_2 urls i) as [url Hurl]; [lia|].
      destruct (fetch_stage_outcome env self urls sched1 w w1 i url Hurl Hrun1)
        as (_ & s1 & b1 & Hm1 & Hf1).
      destruct (fetch_stage_outcome env self urls sched2 w w2 i url Hurl Hrun2)
        as (_ & s2 & b2 & Hm2 & Hf2).
      rewrite Hm1 in Hm2. injection Hm2 as <- <-.
      case_bool_decide.
      * destruct Hf1 as (c1 & -> & Hf1). destruct Hf2 as (c2 & [= <-] & Hf2). congruence.
      * congruence.
    + assert (∀ i, i < length urls → p ≠ ruta self i) as Hp.
      { intros i Hi ->. apply Hout. apply list_elem_of_fmap.
        exists i. split; [done|]. apply elem_of_seq. lia. }
      destruct (fetch_stage_frame env self urls sched1 w _ w1 Hrun1) as [_ H1].
      destruct (fetch_stage_frame env self urls sched2 w _ w2 Hrun2) as [_ H2].
      rewrite H1, H2 by done. done.
  - apply ruta_inj.
  - intros env2 sched1 sched2 w1 w2 Hrun1 Hrun2. split.
    + by apply (Hwritten env2 sched2 w1 w2 Hrun2).
    + intros p Hp.
      destruct (fetch_stage_frame env self urls sched1 w _ w1 Hrun1) as [_ H1].
      destruct (fetch_stage_frame env2 self urls sched2 w1 _ w2 Hrun2) as [_ H2].
      rewrite H2, H1 by done. done.
Qed.

Lemma C5_deterministic_naming_witness :
  ∃ w', fetch_stage env_all_ok demo_self [1; 1; 0; 1; 0; 0] two_urls demo_world
        = Some (Ok (), w') ∧
        files w' !! "imagenes_descargadas/imagen_1.jpg" = Some jpeg ∧
        files w' !! "imagenes_descargadas/imagen_2.jpg" = Some jpeg.
Proof.
  destruct (fetch_stage env_all_ok demo_self [1; 1; 0; 1; 0; 0] two_urls demo_world)
    as [[[[]|e] w']|] eqn:Hrun; try (vm_compute in Hrun; discriminate).
  destruct (C5_deterministic_naming env_all_ok demo_self two_urls demo_world)
    as (Hfiles & _).
  destruct (Hfiles _ _ Hrun) as [Hat _].
  exists w'. split; [reflexivity|]. split.
  - exact (Hat 0 _ jpeg eq_refl eq_refl).
  - exact (Hat 1 _ jpeg eq_refl eq_refl).
Defined.

(** C8: a download task whose response has a status other than 200 prints
    the line of failure with its file name and the status code, returns
    without an exception and changes nothing but the output and the trace
    of requests; in a batch, whatever the schedule and the fate of the
    other tasks, its file is as it was before. *)
Theorem C8_status_failure_writes_nothing (env : Env) (self : PixabayDownloaderAsync)
    (i : nat) (url : json) (status : nat) (body : result (list Byte.byte)) :
  media env i url = Response status body →
  status ≠ 200 →
  (∀ nombre_archivo w,
     descargar_imagen env self i url nombre_archivo w
     = (Ok (), emit ("Error descargando " +:+ nombre_archivo +:+ ": " +:+ pretty status)
                 (record_net (HttpGet url []) w))) ∧
  (∀ urls sched w r w',
     urls !! i = Some url →
     fetch_stage env self sched urls w = Some (r, w') →
     files w' !! ruta self i = files w !! ruta self i ∧
     (r = Ok () →
      ("Error descargando " +:+ nombre i +:+ ": " +:+ pretty status) ∈ stdout w')).
Proof.
  intros Hm Hs. split.
  - intros nombre_archivo w.
    unfold descargar_imagen, mbind, M_bind, trace, print.
    rewrite Hm. by rewrite bool_decide_false.
  - intros urls sched w r w' Hi Hrun. split.
    + by eapply fetch_stage_rejected.
    + intros ->.
      destruct (fetch_stage_outcome env self urls sched w w' i url Hi Hrun) as [Hline _].
      unfold outcome_line in Hline. rewrite Hi, Hm in Hline.
      by rewrite bool_decide_false in Hline.
Qed.

Lemma C8_status_failure_writes_nothing_witness :
  descargar_imagen env_second_404 demo_self 1 (JStr "https://cdn/b.jpg")
    "imagen_2.jpg" demo_world
  = (Ok (), emit "Error descargando imagen_2.jpg: 404"
              (record_net (HttpGet (JStr "https://cdn/b.jpg") []) demo_world)).
Proof.
  destruct (C8_status_failure_writes_nothing env_second_404 demo_self 1
              (JStr "https://cdn/b.jpg") 404 (Ok [])) as [Htask _].
  - reflexivity.
  - lia.
  - exact (Htask "imagen_2.jpg" demo_world).
Defined.

(** Nothing the downloader does removes a directory. *)
Lemma descargar_imagenes_concurrentes_dirs (env : Env) (sched : list nat)
    (self : PixabayDownloaderAsync) (consulta : string) (cantidad : Z)
    (w : World) (r : result unit) (w' : World) :
  descargar_imagenes_concurrentes env sched self consulta cantidad w = Some (r, w') →
  dirs w' = dirs w.
Proof.
  unfold descargar_imagenes_concurrentes.
  destruct (obtener_urls_imagenes env self consulta cantidad w) as [[urls|e] w1] eqn:Hres;
    destruct (obtener_urls_imagenes_frame _ _ _ _ _ _ _ Hres) as (Hd & _).
  - intros Hrun. apply fetch_stage_frame in Hrun as [Hd' _]. congruence.
  - by intros [= _ <-].
Qed.

(** C10: the constructor makes the output directory before anything else
    happens: no request has been sent, nothing printed, no file written
    when it is over; a file system in which every directory lies in a
    directory stays so, the parents are made with it.  When the
    constructor returns the directory exists; when the directory existed
    already the constructor returns and changes nothing; when it did not
    exist but can be made, with the directories above it, the constructor
    returns; and the directory is still there after every run of the
    download method, whatever was resolved and downloaded, and after every
    run of [main] whose constructor returned. *)
Theorem C10_constructor_makes_directory (k d : string) (w : World) :
  (∀ r w', __init__ k d w = (r, w') →
     net w' = net w ∧ stdout w' = stdout w ∧ files w' = files w ∧
     dirs w ⊆ dirs w' ∧ (fs_ok w → fs_ok w')) ∧
  (∀ self w', __init__ k d w = (Ok self, w') →
     self = mkDownloader k d ∧ isdir d w' = true) ∧
  (fs_ok w → isdir d w = true → __init__ k d w = (Ok (mkDownloader k d), w)) ∧
  (fs_ok w → makeable w d → ∃ w', __init__ k d w = (Ok (mkDownloader k d), w')) ∧
  (∀ self w1 env sched consulta cantidad r w2,
     __init__ k d w = (Ok self, w1) →
     descargar_imagenes_concurrentes env sched self consulta cantidad w1 = Some (r, w2) →
     isdir d w2 = true) ∧
  (∀ env sched r w',
     main env sched w = Some (r, w') →
     (∃ e, r = Raise e ∧ net w' = net w) ∨ isdir "imagenes_descargadas" w' = true).
Proof.
  split_and!.
  - intros r w' Hinit. destruct (init_spec k d w r w' Hinit) as [(?&?&?&?&?&?) _]. done.
  - intros self w' Hinit. destruct (init_spec k d w _ w' Hinit) as [_ Hself]. by apply Hself.
  - intros Hok Hdir. unfold __init__, mbind, M_bind.
    by rewrite (makedirs_existing d w Hok Hdir).
  - intros Hok Hmk. unfold __init__, mbind, M_bind, makedirs.
    destruct (makedirs_fuel_makeable w d Hok Hmk (String.length d)) as [w' ->]; [done|].
    eauto.
  - intros self w1 env sched consulta cantidad r w2 Hinit Hrun.
    destruct (init_spec k d w _ w1 Hinit) as [_ Hself].
    destruct (Hself self eq_refl) as [_ Hdir].
    apply descargar_imagenes_concurrentes_dirs in Hrun.
    eapply isdir_mono; [|exact Hdir]. by rewrite Hrun.
  - intros env sched r w'. unfold main.
    destruct (__init__ "PON_AQUÍ_TU_API_KEY" "imagenes_descargadas" w)
      as [[self|e] w1] eqn:Hinit;
      destruct (init_spec _ _ w _ w1 Hinit) as [(_&_&Hn&_) Hself].
    + intros Hrun. right.
      destruct (Hself self eq_refl) as [_ Hdir].
      apply descargar_imagenes_concurrentes_dirs in Hrun.
      eapply isdir_mono; [|exact Hdir]. by rewrite Hrun.
    + intros [= <- <-]. left. eauto.
Qed.

Lemma C10_constructor_makes_directory_witness :
  ∃ w', __init__ "clave" "salida/fotos/gatos" world_empty
        = (Ok (mkDownloader "clave" "salida/fotos/gatos"), w') ∧
        isdir "salida/fotos/gatos" w' = true ∧
        isdir "salida/fotos" w' = true ∧
        isdir "salida" w' = true ∧
        net w' = [].
Proof.
  assert (∀ p, p ≠ "" → free world_empty p) as Hfree.
  { intros p Hp. split; [done|]. split; [done|]. split; [done|].
    apply not_elem_of_empty. }
  destruct (C10_constructor_makes_directory "clave" "salida/fotos/gatos" world_empty)
    as (_ & Hdir & _ & Hmake & _).
  destruct Hmake as [w' Hinit].
  - intros p Hp. by apply not_elem_of_empty in Hp.
  - apply makeable_below; [by apply Hfree|done|].
    apply makeable_below; [by apply Hfree|done|].
    apply makeable_here; [by apply Hfree|by left].
  - destruct (Hdir _ _ Hinit) as [_ Hd].
    exists w'. split; [exact Hinit|]. split; [exact Hd|].
    assert ((Ok (mkDownloader "clave" "salida/fotos/gatos"), w')
            = __init__ "clave" "salida/fotos/gatos" world_empty)
      as Heq by (symmetry; exact Hinit).
    vm_compute in Heq. injection Heq as ->.
    split; [vm_compute; reflexivity|]. split; [vm_compute; reflexivity|]. reflexivity.
Defined.

(** * Further properties *)

(** ** More of the invariant of a batch *)

Lemma started_at_insert_ne (ts : list tarea) (i j : nat) (t' : tarea) :
  j ≠ i → started_at (<[i:=t']> ts) j ↔ started_at ts j.
Proof. intros Hne. unfold started_at. by rewrite list_lookup_insert_ne. Qed.

Lemma started_at_insert_eq (ts : list tarea) (i : nat) (t t' : tarea) :
  ts !! i = Some t →
  started_at (<[i:=t']> ts) i ↔ t_estado t' ≠ Created.
Proof.
  intros Hi. unfold started_at.
  rewrite list_lookup_insert_eq by (by eapply lookup_lt_Some).
  split; [by intros (? & [= <-] & ?) | eauto].
Qed.

Lemma more_inv_init (env : Env) (self : PixabayDownloaderAsync) (urls : list json)
    (w0 : World) :
  more_inv env self urls w0 (lanzar urls) w0.
Proof.
  split.
  - exists []. split_and!.
    + constructor.
    + intros i. split; [by intros ?%elem_of_nil|].
      intros (t & Hi & Hst). apply lanzar_lookup in Hi as (_ & _ & ?). done.
    + simpl. by rewrite app_nil_r.
  - intros i t e Hi Hst. apply lanzar_lookup in Hi as (_ & _ & ?). congruence.
  - done.
Qed.

(** One transition of the task at position [i]: the request it sends, the
    reason of its exception, and its file when no body comes. *)
Lemma transition_more (env : Env) (self : PixabayDownloaderAsync) (urls : list json)
    (w0 : World) (i : nat) (t : tarea) (w : World) (st : estado) (w' : World) :
  dirs w = dirs w0 → readonly w = readonly w0 → fsize_limit w = fsize_limit w0 →
  t_nombre t = nombre i →
  task_inv env self w0 i t w → transition env self i t w st w' →
  ((t_estado t = Created ∧ st ≠ Created ∧ net w' = net w ++ [HttpGet (t_url t) []])
   ∨ (t_estado t ≠ Created ∧ st ≠ Created ∧ net w' = net w))
  ∧ (∀ e, st = Raised e → t_estado t = Raised e ∨ cause env self w0 i (t_url t) e)
  ∧ (undelivered env i (t_url t) → files w' = files w).
Proof.
  intros Hd Hro Hl Hname Hpre Htr.
  assert (os_path_join (directorio_imagenes self) (t_nombre t) = ruta self i) as Hruta.
  { unfold ruta. by rewrite Hname. }
  unfold task_inv in Hpre.
  destruct Htr as [Hst|e Hst Hm|status body Hst Hm Hs|body Hst Hm|e Hst
                  |c e w' Hst Hw|c w' Hst Hw|Hst|e Hst];
    rewrite Hst in Hpre; rewrite ?Hruta in *.
  - split; [left; by rewrite Hst|]. split; [done|done].
  - split; [right; by rewrite Hst|]. split; [|done].
    intros e' [= <-]. right. by left.
  - split; [right; by rewrite Hst|]. split; [done|done].
  - split; [right; by rewrite Hst|]. split; [done|done].
  - destruct Hpre as [Hm _].
    split; [right; by rewrite Hst|]. split; [|done].
    intros e' [= <-]. right. right. by left.
  - destruct Hpre as [Hm _].
    destruct (open_write_frame _ _ _ _ _ Hw) as (_&_&_&_&Hn&_&_).
    split; [right; by rewrite Hst|]. split.
    + intros e' [= <-]. right. right. right. exists c. split; [done|].
      rewrite <-(writable_static w w0) by done. unfold writable. by rewrite Hw.
    + intros Hno. by destruct (Hno c).
  - destruct Hpre as [Hm _].
    destruct (open_write_frame _ _ _ _ _ Hw) as (_&_&_&_&Hn&_&_).
    split; [right; by rewrite Hst|]. split; [done|].
    intros Hno. by destruct (Hno c).
  - split; [right; by rewrite Hst|]. split; [done|done].
  - split; [right; by rewrite Hst|]. split; [|done].
    intros e' [= <-]. by left.
Qed.

Lemma more_inv_turn (env : Env) (self : PixabayDownloaderAsync) (urls : list json)
    (w0 : World) (i : nat) (ts : list tarea) (first : option exn) (w : World) :
  batch_inv env self urls w0 ts first w →
  more_inv env self urls w0 ts w →
  more_inv env self urls w0 (turn env self i ts w).1 (turn env self i ts w).2.
Proof.
  intros Hinv Hmore. unfold turn.
  destruct (ts !! i) as [t|] eqn:Hi; simpl; [|done].
  pose proof (resume_transition env self i t w) as Htr.
  destruct (resume env self i t w) as [st w'] eqn:Hr. simpl in *.
  destruct (inv_static _ _ _ _ _ _ _ Hinv i t Hi) as [Hurl Hname].
  assert (i < length ts) as Hlt by (by eapply lookup_lt_Some).
  destruct (transition_frame _ _ _ _ _ _ _ Htr) as (_ & _ & _ & Hfr).
  assert (os_path_join (directorio_imagenes self) (t_nombre t) = ruta self i) as Hruta.
  { unfold ruta. by rewrite Hname. }
  rewrite Hruta in Hfr.
  destruct (transition_more env self urls w0 i t w st w'
              (inv_dirs _ _ _ _ _ _ _ Hinv) (inv_readonly _ _ _ _ _ _ _ Hinv)
              (inv_limit _ _ _ _ _ _ _ Hinv) Hname
              (inv_task _ _ _ _ _ _ _ Hinv i t Hi) Htr) as (Hnet & Hcause & Hkeep).
  set (t' := mkTarea (t_url t) (t_nombre t) st) in *.
  split.
  - destruct (more_net _ _ _ _ _ _ Hmore) as (order & Hnd & Hmem & Hout).
    destruct Hnet as [(Hpre & Hpost & Hn)|(Hpre & Hpost & Hn)].
    + exists (order ++ [i]). split_and!.
      * apply NoDup_app. split_and!; [done| |apply NoDup_singleton].
        intros j Hj ->%list_elem_of_singleton.
        apply Hmem in Hj as (tj & Htj & Hsj). congruence.
      * intros j. rewrite elem_of_app, list_elem_of_singleton.
        destruct (decide (j = i)) as [->|Hne].
        -- rewrite (started_at_insert_eq ts i t t') by done. simpl. tauto.
        -- rewrite started_at_insert_ne by done. rewrite Hmem. tauto.
      * assert (request_of urls i = HttpGet (t_url t) []) as Hreq.
        { unfold request_of. by rewrite Hurl. }
        rewrite Hn, Hout, map_app. simpl. rewrite Hreq.
        by rewrite <-app_assoc.
    + exists order. split_and!; [done| |by rewrite Hn].
      intros j. rewrite Hmem.
      destruct (decide (j = i)) as [->|Hne].
      * rewrite (started_at_insert_eq ts i t t') by done. simpl.
        unfold started_at. rewrite Hi.
        split; [done|]. intros _. exists t. done.
      * by rewrite started_at_insert_ne.
  - intros j tj e Hj Hst. destruct (decide (j = i)) as [->|Hne].
    + rewrite list_lookup_insert_eq in Hj by done. injection Hj as <-. simpl in *.
      destruct (Hcause e Hst) as [Hold|Hnew]; [|done].
      by eapply (more_cause _ _ _ _ _ _ Hmore).
    + rewrite list_lookup_insert_ne in Hj by done.
      by eapply (more_cause _ _ _ _ _ _ Hmore).
  - intros j tj Hj Hno. destruct (decide (j = i)) as [->|Hne].
    + rewrite list_lookup_insert_eq in Hj by done. injection Hj as <-. simpl in *.
      rewrite (Hkeep Hno). by eapply (more_untouched _ _ _ _ _ _ Hmore).
    + rewrite list_lookup_insert_ne in Hj by done.
      rewrite Hfr; [by eapply (more_untouched _ _ _ _ _ _ Hmore)|].
      intros Heq. by apply ruta_inj in Heq.
Qed.

Lemma more_inv_run (env : Env) (self : PixabayDownloaderAsync) (urls : list json)
    (w0 : World) (sched : list nat) (ts : list tarea) (first : option exn) (w : World) :
  batch_inv env self urls w0 ts first w →
  more_inv env self urls w0 ts w →
  more_inv env self urls w0 (run_loop env self sched ts first w).1.1
                            (run_loop env self sched ts first w).2.
Proof.
  revert ts first w. induction sched as [|i sched IH]; intros ts first w Hinv Hmore; [done|].
  simpl.
  pose proof (batch_inv_turn env self urls w0 i ts first w Hinv) as Hturn.
  pose proof (more_inv_turn env self urls w0 i ts first w Hinv Hmore) as Hturn'.
  destruct (turn env self i ts w) as [ts' w']. by apply IH.
Qed.

(** Both invariants at the end of a run of the download stage that got
    as far as its session. *)
Lemma fetch_stage_more (env : Env) (self : PixabayDownloaderAsync) (urls : list json)
    (sched : list nat) (w : World) (r : result unit) (w' : World) :
  urls ≠ [] → session_ready env →
  fetch_stage env self sched urls w = Some (r, w') →
  ∃ ts first w2,
    batch_inv env self urls (started w) ts first w2 ∧
    more_inv env self urls (started w) ts w2 ∧
    match first with
    | Some e => r = Raise e ∧ w' = w2
    | None =>
        r = Ok () ∧ w' = emit "Todas las imágenes han sido descargadas." w2 ∧
        ∀ i t, ts !! i = Some t → t_estado t = Returned
    end.
Proof.
  intros Hne Hssl Hrun.
  destruct (fetch_stage_cases env self urls sched w r w' Hne Hrun)
    as [(e & He & _)|(_ & ts & first & w2 & Hloop & Hinv & Hres)].
  { unfold session_ready in Hssl. congruence. }
  pose proof (more_inv_run env self urls (started w) sched _ _ _
                (batch_inv_init env self urls (started w))
                (more_inv_init env self urls (started w))) as Hmore.
  rewrite Hloop in Hmore. simpl in Hmore.
  exists ts, first, w2. done.
Qed.

Lemma cause_started (env : Env) (self : PixabayDownloaderAsync) (w : World)
    (i : nat) (url : json) (e : exn) :
  cause env self (started w) i url e ↔ cause env self w i url e.
Proof.
  unfold cause. by setoid_rewrite (writable_static (started w) w).
Qed.

(** ** The download stage *)

(** The requests of a run of the download stage. *)
Lemma fetch_stage_requests (env : Env)
    (self : PixabayDownloaderAsync) (urls : list json) (sched : list nat)
    (w : World) (r : result unit) (w' : World) :
  urls ≠ [] → session_ready env →
  fetch_stage env self sched urls w = Some (r, w') →
  ∃ order, NoDup order ∧ (∀ i, i ∈ order → i < length urls) ∧
    net w' = net w ++ SessionOpened :: map (request_of urls) order ∧
    (r = Ok () → order ≡ₚ seq 0 (length urls)).
Proof.
  intros Hne Hssl Hrun.
  destruct (fetch_stage_more env self urls sched w r w' Hne Hssl Hrun)
    as (ts & first & w2 & Hinv & Hmore & Hres).
  destruct (more_net _ _ _ _ _ _ Hmore) as (order & Hnd & Hmem & Hnet).
  pose proof (inv_length _ _ _ _ _ _ _ Hinv) as Hlen.
  assert (net w' = net w2) as Hw'.
  { destruct first; [by destruct Hres as [_ ->]|by destruct Hres as (_ & -> & _)]. }
  exists order. split_and!; [done| | |].
  - intros i (t & Ht & _)%Hmem. apply lookup_lt_Some in Ht. lia.
  - rewrite Hw', Hnet. simpl. by rewrite <-app_assoc.
  - intros ->. destruct first as [e|]; [by destruct Hres|].
    destruct Hres as (_ & _ & Hall).
    apply NoDup_Permutation; [done|apply NoDup_seq|].
    intros i. rewrite Hmem, elem_of_seq. split.
    + intros (t & Ht & _). apply lookup_lt_Some in Ht. lia.
    + intros [_ Hlt]. destruct (lookup_lt_is_Some_2 ts i) as [t Ht]; [lia|].
      exists t. split; [done|]. by rewrite (Hall i t Ht).
Qed.

(** X1: the download stage opens one session and sends at most one request
    per reference, never a second one for the same position (there is no
    retry); when it returns, it has sent exactly one per reference. *)
Theorem fetch_stage_one_request_per_reference (env : Env)
    (self : PixabayDownloaderAsync) (urls : list json) (sched : list nat)
    (w : World) (r : result unit) (w' : World) :
  urls ≠ [] → session_ready env →
  fetch_stage env self sched urls w = Some (r, w') →
  ∃ order, NoDup order ∧ (∀ i, i ∈ order → i < length urls) ∧
    net w' = net w ++ SessionOpened :: map (request_of urls) order ∧
    (r = Ok () → order ≡ₚ seq 0 (length urls)).
Proof. apply fetch_stage_requests. Qed.

Lemma fetch_stage_one_request_per_reference_witness :
  ∃ r w', fetch_stage env_first_unreachable demo_self [1; 0; 1; 0] two_urls demo_world
          = Some (r, w') ∧
          net w' = [SessionOpened; HttpGet (JStr "https://cdn/b.jpg") [];
                    HttpGet (JStr "https://cdn/a.jpg") []].
Proof.
  destruct (fetch_stage env_first_unreachable demo_self [1; 0; 1; 0] two_urls demo_world)
    as [[r w']|] eqn:Hrun; [|vm_compute in Hrun; discriminate].
  destruct (fetch_stage_one_request_per_reference env_first_unreachable demo_self
              two_urls [1; 0; 1; 0] demo_world r w') as (order & _ & _ & Hnet & _).
  - discriminate.
  - reflexivity.
  - exact Hrun.
  - exists r, w'. split; [reflexivity|].
    clear Hnet. vm_compute in Hrun. injection Hrun as <- <-. reflexivity.
Defined.

(** X2: the exception with which the download stage ends is never of its
    own making: it is the one of building the TLS context, or the one of a
    request that got no response, or of a body that could not be read, or
    it comes from a file that could not be written. *)
Theorem fetch_stage_exception_has_a_cause (env : Env) (self : PixabayDownloaderAsync)
    (urls : list json) (sched : list nat) (w : World) (e : exn) (w' : World) :
  fetch_stage env self sched urls w = Some (Raise e, w') →
  ssl_create_default_context env = Raise e
  ∨ ∃ i url, urls !! i = Some url ∧ cause env self w i url e.
Proof.
  intros Hrun.
  assert (urls ≠ []) as Hne.
  { intros ->. unfold fetch_stage, print in Hrun. discriminate. }
  destruct (fetch_stage_cases env self urls sched w _ w' Hne Hrun)
    as [(e' & He & [= <-] & _)|(_ & ts & first & w2 & Hloop & Hinv & Hres)]; [by left|].
  right.
  pose proof (more_inv_run env self urls (started w) sched _ _ _
                (batch_inv_init env self urls (started w))
                (more_inv_init env self urls (started w))) as Hmore.
  rewrite Hloop in Hmore. simpl in Hmore.
  destruct first as [e'|]; [|by destruct Hres].
  destruct Hres as [[= <-] _].
  destruct (inv_first_some _ _ _ _ _ _ _ Hinv e eq_refl) as (i & t & Ht & Hst).
  destruct (inv_static _ _ _ _ _ _ _ Hinv i t Ht) as [Hurl _].
  exists i, (t_url t). split; [done|].
  apply cause_started. by eapply (more_cause _ _ _ _ _ _ Hmore).
Qed.

Lemma fetch_stage_exception_has_a_cause_witness :
  ssl_create_default_context env_second_times_out = Raise TimeoutError
  ∨ ∃ i url, two_urls !! i = Some url ∧
             cause env_second_times_out demo_self demo_world i url TimeoutError.
Proof.
  destruct (fetch_stage env_second_times_out demo_self [0; 1; 1] two_urls demo_world)
    as [[[[]|e] w']|] eqn:Hrun; try (vm_compute in Hrun; discriminate).
  assert (e = TimeoutError) as Heq.
  { pose proof Hrun as Hc. vm_compute in Hc. by injection Hc as <- _. }
  rewrite Heq in Hrun.
  exact (fetch_stage_exception_has_a_cause env_second_times_out demo_self two_urls
           [0; 1; 1] demo_world TimeoutError w' Hrun).
Defined.

(** X3: a request that brings no body (no response, a status other than
    200, or a body that cannot be read) never costs the image of an earlier
    run: whatever the schedule and however the stage ends, the file of
    that position is as it was. *)
Theorem fetch_stage_no_body_no_write (env : Env) (self : PixabayDownloaderAsync)
    (urls : list json) (sched : list nat) (w : World) (r : result unit) (w' : World)
    (i : nat) (url : json) :
  urls !! i = Some url → undelivered env i url →
  fetch_stage env self sched urls w = Some (r, w') →
  files w' !! ruta self i = files w !! ruta self i.
Proof.
  intros Hi Hno Hrun.
  assert (urls ≠ []) as Hne by (by intros Hnil; rewrite Hnil in Hi).
  destruct (fetch_stage_cases env self urls sched w r w' Hne Hrun)
    as [(e & _ & _ & ->)|(_ & ts & first & w2 & Hloop & Hinv & Hres)]; [done|].
  pose proof (more_inv_run env self urls (started w) sched _ _ _
                (batch_inv_init env self urls (started w))
                (more_inv_init env self urls (started w))) as Hmore.
  rewrite Hloop in Hmore. simpl in Hmore.
  assert (files w' = files w2) as ->.
  { destruct first; [by destruct Hres as [_ ->]|by destruct Hres as (_ & -> & _)]. }
  destruct (ts !! i) as [t|] eqn:Ht.
  2:{ apply lookup_ge_None in Ht. apply lookup_lt_Some in Hi.
      rewrite (inv_length _ _ _ _ _ _ _ Hinv) in Ht. lia. }
  destruct (inv_static _ _ _ _ _ _ _ Hinv i t Ht) as [Hurl _].
  assert (t_url t = url) as Heq by congruence.
  rewrite (more_untouched _ _ _ _ _ _ Hmore i t Ht); [done|]. by rewrite Heq.
Qed.

Lemma fetch_stage_no_body_no_write_witness :
  ∃ r w', fetch_stage env_first_unreachable demo_self (round_robin 2) two_urls
            world_old_image = Some (r, w') ∧
          files w' !! "imagenes_descargadas/imagen_1.jpg" = Some [Byte.x00].
Proof.
  destruct (fetch_stage env_first_unreachable demo_self (round_robin 2) two_urls
              world_old_image) as [[r w']|] eqn:Hrun; [|vm_compute in Hrun; discriminate].
  exists r, w'. split; [reflexivity|].
  apply (fetch_stage_no_body_no_write env_first_unreachable demo_self two_urls
           (round_robin 2) world_old_image r w' 0 (JStr "https://cdn/a.jpg")).
  - reflexivity.
  - intros c. discriminate.
  - exact Hrun.
Defined.

(** X4: at every turn of every schedule, the file of a download that is
    answered 200 and can be written is either as it was before the batch
    or holds the whole body, and it holds the body exactly when the task
    has returned: a file is never seen half written, and the exception of
    a sibling does not undo it. *)
Theorem file_old_or_complete (env : Env) (self : PixabayDownloaderAsync)
    (urls : list json) (sched : list nat) (w : World)
    (i : nat) (url : json) (c : list Byte.byte) :
  urls !! i = Some url →
  media env i url = Response 200 (Ok c) →
  writable w (ruta self i) c = true →
  (¬ returned_at (run_loop env self sched (lanzar urls) None (started w)).1.1 i ∧
   files (run_loop env self sched (lanzar urls) None (started w)).2 !! ruta self i
   = files w !! ruta self i)
  ∨ (returned_at (run_loop env self sched (lanzar urls) None (started w)).1.1 i ∧
     files (run_loop env self sched (lanzar urls) None (started w)).2 !! ruta self i
     = Some c).
Proof.
  intros Hi Hm Hw.
  pose proof (batch_inv_run env self urls (started w) sched _ _ _
                (batch_inv_init env self urls (started w))) as Hinv.
  destruct (run_loop env self sched (lanzar urls) None (started w)) as [[ts first] w'].
  simpl in *.
  destruct (ts !! i) as [t|] eqn:Ht.
  2:{ apply lookup_ge_None in Ht. apply lookup_lt_Some in Hi.
      rewrite (inv_length _ _ _ _ _ _ _ Hinv) in Ht. lia. }
  destruct (inv_static _ _ _ _ _ _ _ Hinv i t Ht) as [Hurl _].
  assert (t_url t = url) as Heq by congruence.
  pose proof (inv_task _ _ _ _ _ _ _ Hinv i t Ht) as Hti.
  unfold task_inv, crashes, returned_at in *. rewrite Heq, Hm in Hti.
  rewrite Ht.
  destruct (t_estado t) eqn:Hst.
  - left. split; [intros (? & [= <-] & ?); congruence|done].
  - left. split; [intros (? & [= <-] & ?); congruence|done].
  - left. split; [intros (? & [= <-] & ?); congruence|by destruct Hti].
  - right. rewrite bool_decide_true in Hti by done.
    destruct Hti as (c' & [= <-] & _ & Hf). split; [eauto|done].
  - exfalso. destruct Hti as [_ Hno].
    rewrite (writable_static (started w) w) in Hno by done. congruence.
Qed.

Lemma file_old_or_complete_witness :
  files (run_loop env_second_times_out demo_self [0; 0; 0; 1; 1] (lanzar two_urls) None
           (started world_old_image)).2 !! ruta demo_self 0 = Some jpeg.
Proof.
  destruct (file_old_or_complete env_second_times_out demo_self two_urls [0; 0; 0; 1; 1]
              world_old_image 0 (JStr "https://cdn/a.jpg") jpeg) as [[Hnot _]|[_ Hf]].
  - reflexivity.
  - reflexivity.
  - vm_compute. reflexivity.
  - exfalso. apply Hnot. vm_compute. eexists. split; reflexivity.
  - exact Hf.
Defined.

(** X5: files of positions beyond the end of the list are not touched:
    the images a longer, earlier run left behind stay where they are. *)
Theorem fetch_stage_stale_files_stay (env : Env) (self : PixabayDownloaderAsync)
    (urls : list json) (sched : list nat) (w : World) (r : result unit) (w' : World)
    (j : nat) :
  length urls ≤ j →
  fetch_stage env self sched urls w = Some (r, w') →
  files w' !! ruta self j = files w !! ruta self j.
Proof.
  intros Hj Hrun.
  destruct (fetch_stage_frame env self urls sched w r w' Hrun) as [_ Hframe].
  apply Hframe. intros i Hi Heq. apply ruta_inj in Heq. lia.
Qed.

Lemma fetch_stage_stale_files_stay_witness :
  ∃ w', fetch_stage env_all_ok demo_self (round_robin 2) two_urls world_old_image
        = Some (Ok (), w') ∧
        files w' !! "imagenes_descargadas/imagen_3.jpg" = Some [Byte.x00].
Proof.
  destruct (fetch_stage env_all_ok demo_self (round_robin 2) two_urls world_old_image)
    as [[[[]|e] w']|] eqn:Hrun; try (vm_compute in Hrun; discriminate).
  exists w'. split; [reflexivity|].
  apply (fetch_stage_stale_files_stay env_all_ok demo_self two_urls (round_robin 2)
           world_old_image (Ok ()) w' 2).
  - simpl. lia.
  - exact Hrun.
Defined.

Lemma outcome_line_not_closing (env : Env) (urls : list json) (i : nat)
    (status : nat) (body : result (list Byte.byte)) (url : json) :
  urls !! i = Some url → media env i url = Response status body →
  outcome_line env urls i ≠ "Todas las imágenes han sido descargadas.".
Proof.
  intros Hi Hm. unfold outcome_line. rewrite Hi, Hm.
  case_bool_decide; rewrite append_cons; discriminate.
Qed.

(** X6: when the download stage ends with an exception, what it has
    printed are the outcome lines of the tasks that had returned by then,
    each once, and of fewer tasks than were started; the closing line
    "Todas las imágenes han sido descargadas." is not printed. *)
Theorem fetch_stage_raise_output (env : Env) (self : PixabayDownloaderAsync)
    (urls : list json) (sched : list nat) (w : World) (e : exn) (w' : World) :
  fetch_stage env self sched urls w = Some (Raise e, w') →
  ∃ order, NoDup order ∧ (∀ i, i ∈ order → i < length urls) ∧
    length order < length urls ∧
    stdout w' = stdout w ++ map (outcome_line env urls) order ∧
    "Todas las imágenes han sido descargadas." ∉ map (outcome_line env urls) order.
Proof.
  intros Hrun.
  assert (urls ≠ []) as Hne.
  { intros ->. unfold fetch_stage, print in Hrun. discriminate. }
  destruct (fetch_stage_cases env self urls sched w _ w' Hne Hrun)
    as [(e' & _ & _ & ->)|(_ & ts & first & w2 & Hloop & Hinv & Hres)].
  { exists []. split_and!.
    - constructor.
    - by intros i ?%elem_of_nil.
    - destruct urls; [done|simpl; lia].
    - simpl. by rewrite app_nil_r.
    - by intros ?%elem_of_nil. }
  destruct first as [e'|]; [|by destruct Hres].
  destruct Hres as [_ ->].
  pose proof (inv_length _ _ _ _ _ _ _ Hinv) as Hlen.
  destruct (inv_log _ _ _ _ _ _ _ Hinv) as (order & Hnd & Hmem & Hout).
  destruct (inv_first_some _ _ _ _ _ _ _ Hinv e' eq_refl) as (i0 & t0 & Ht0 & Hst0).
  assert (∀ i, i ∈ order → i < length urls) as Hlt.
  { intros i (t & Ht & _)%Hmem. apply lookup_lt_Some in Ht. lia. }
  exists order. split_and!; [done|done| |done|].
  - assert (i0 ∉ order) as Hnotin.
    { intros (t & Ht & Hst)%Hmem. congruence. }
    assert (order ++ [i0] ⊆+ seq 0 (length urls)) as Hsub.
    { apply NoDup_submseteq.
      - apply NoDup_app. split_and!; [done| |apply NoDup_singleton].
        by intros j Hj ->%list_elem_of_singleton.
      - intros j [Hj| ->%list_elem_of_singleton]%elem_of_app; apply elem_of_seq.
        + specialize (Hlt j Hj). lia.
        + apply lookup_lt_Some in Ht0. lia. }
    apply submseteq_length in Hsub. rewrite length_app, length_seq in Hsub.
    simpl in Hsub. lia.
  - intros (i & Hline & Hi)%list_elem_of_fmap.
    apply Hmem in Hi as (t & Ht & Hst).
    destruct (inv_static _ _ _ _ _ _ _ Hinv i t Ht) as [Hurl _].
    destruct (returned_task env self _ _ i t (inv_task _ _ _ _ _ _ _ Hinv i t Ht) Hst)
      as [_ (status & body & Hm & _)].
    by eapply outcome_line_not_closing.
Qed.

Lemma fetch_stage_raise_output_witness :
  ∃ e w', fetch_stage env_second_times_out demo_self [0; 0; 0; 1; 1] two_urls demo_world
          = Some (Raise e, w') ∧
          stdout w' = ["Descarga completada: imagen_1.jpg"].
Proof.
  destruct (fetch_stage env_second_times_out demo_self [0; 0; 0; 1; 1] two_urls demo_world)
    as [[[[]|e] w']|] eqn:Hrun; try (vm_compute in Hrun; discriminate).
  destruct (fetch_stage_raise_output env_second_times_out demo_self two_urls
              [0; 0; 0; 1; 1] demo_world e w' Hrun) as (order & _ & _ & _ & Hout & _).
  exists e, w'. split; [reflexivity|].
  clear Hout. vm_compute in Hrun. injection Hrun as _ <-. reflexivity.
Defined.

(** ** The resolver *)

Lemma mapM_lift_failure {A B : Type} (f : A → result B) (good : list A) (ys : list B)
    (x : A) (rest : list A) (e : exn) (w : World) :
  Forall2 (λ a y, f a = Ok y) good ys → f x = Raise e →
  mapM (λ a, lift (f a)) (good ++ x :: rest) w = (Raise e, w).
Proof.
  intros Hgood Hx. induction Hgood as [|a y good ys Ha _ IH]; simpl.
  - unfold mbind, M_bind, lift at 1. by rewrite Hx.
  - unfold mbind at 1, M_bind at 1, lift at 1. rewrite Ha.
    unfold mbind at 1, M_bind at 1. by rewrite IH.
Qed.

(** What a call of the resolver leaves in the world. *)
Lemma resolver_trace (env : Env) (self : PixabayDownloaderAsync)
    (consulta : string) (cantidad : Z) (w : World) (r : result (list json)) (w' : World) :
  obtener_urls_imagenes env self consulta cantidad w = (r, w') →
  files w' = files w ∧ dirs w' = dirs w ∧
  match ssl_create_default_context env with
  | Raise e => r = Raise e ∧ net w' = net w ∧ stdout w' = stdout w
  | Ok _ =>
      net w' = net w ++ [SessionOpened;
                         HttpGet (JStr "https://pixabay.com/api/")
                           [("key", JStr (api_key self)); ("q", JStr consulta);
                            ("image_type", JStr "photo"); ("per_page", JInt cantidad)]] ∧
      match api env URL_BASE (parametros self consulta cantidad) with
      | Response status _ =>
          if bool_decide (status = 200) then stdout w' = stdout w
          else stdout w' = stdout w
                           ++ ["Error en la solicitud a la API: " +:+ pretty status]
      | NoResponse _ => stdout w' = stdout w
      end
  end.
Proof.
  intros Hres.
  destruct (obtener_urls_imagenes_frame _ _ _ _ _ _ _ Hres) as (Hd & Hf & _).
  split; [done|]. split; [done|].
  destruct (ssl_create_default_context env) as [[]|e] eqn:Hssl.
  2:{ unfold obtener_urls_imagenes in Hres.
      unfold mbind at 1, M_bind at 1, lift at 1 in Hres. rewrite Hssl in Hres.
      by injection Hres as <- <-. }
  rewrite (obtener_urls_imagenes_unfold env self consulta cantidad w Hssl) in Hres.
  set (w2 := record_net _ (started w)) in Hres.
  assert (net w2 = net w ++ [SessionOpened;
            HttpGet (JStr "https://pixabay.com/api/")
              [("key", JStr (api_key self)); ("q", JStr consulta);
               ("image_type", JStr "photo"); ("per_page", JInt cantidad)]]) as Hnet.
  { subst w2. simpl. by rewrite <-app_assoc. }
  destruct (api env URL_BASE (parametros self consulta cantidad)) as [e|status body].
  { by injection Hres as <- <-. }
  case_bool_decide; [|by injection Hres as <- <-].
  unfold mbind at 1, M_bind at 1, lift at 1 in Hres.
  destruct body as [datos|e]; [|by injection Hres as <- <-].
  unfold mbind at 1, M_bind at 1, lift at 1 in Hres.
  destruct (getitem datos "hits") as [hits|e]; [|by injection Hres as <- <-].
  unfold mbind at 1, M_bind at 1, lift at 1 in Hres.
  destruct (iter hits) as [imagenes|e]; [|by injection Hres as <- <-].
  destruct (mapM_lift (λ imagen, getitem imagen "largeImageURL") imagenes w2) as [Hw _].
  rewrite Hres in Hw. simpl in Hw. by subst w'.
Qed.

(** X7: the resolver sends one request and no more, whatever comes back:
    to the API's address, with the key, the query, [image_type=photo] and
    the requested count as [per_page]; there is no second page and no
    retry.  It prints only after a status other than 200, and it never
    touches the file system.  When the TLS context cannot be built it
    sends nothing. *)
Theorem resolver_one_request (env : Env) (self : PixabayDownloaderAsync)
    (consulta : string) (cantidad : Z) (w : World) (r : result (list json)) (w' : World) :
  obtener_urls_imagenes env self consulta cantidad w = (r, w') →
  files w' = files w ∧ dirs w' = dirs w ∧
  match ssl_create_default_context env with
  | Raise e => r = Raise e ∧ net w' = net w ∧ stdout w' = stdout w
  | Ok _ =>
      net w' = net w ++ [SessionOpened;
                         HttpGet (JStr "https://pixabay.com/api/")
                           [("key", JStr (api_key self)); ("q", JStr consulta);
                            ("image_type", JStr "photo"); ("per_page", JInt cantidad)]] ∧
      match api env URL_BASE (parametros self consulta cantidad) with
      | Response status _ =>
          if bool_decide (status = 200) then stdout w' = stdout w
          else stdout w' = stdout w
                           ++ ["Error en la solicitud a la API: " +:+ pretty status]
      | NoResponse _ => stdout w' = stdout w
      end
  end.
Proof. apply resolver_trace. Qed.

Lemma resolver_one_request_witness :
  net (obtener_urls_imagenes env_api_403 demo_self "gatos" 50 demo_world).2
  = [SessionOpened;
     HttpGet (JStr "https://pixabay.com/api/")
       [("key", JStr "clave"); ("q", JStr "gatos");
        ("image_type", JStr "photo"); ("per_page", JInt 50)]].
Proof.
  destruct (resolver_one_request env_api_403 demo_self "gatos" 50 demo_world
              (obtener_urls_imagenes env_api_403 demo_self "gatos" 50 demo_world).1
              (obtener_urls_imagenes env_api_403 demo_self "gatos" 50 demo_world).2)
    as (_ & _ & Hnet & _).
  - apply surjective_pairing.
  - exact Hnet.
Defined.

(** X8: one hit that is not an object with a [largeImageURL] makes the
    whole resolution fail, whatever the hits before and after it: the
    resolver raises [KeyError] or [TypeError], the URLs already read are
    dropped, nothing is printed and nothing is downloaded. *)
Theorem resolver_bad_hit (env : Env) (self : PixabayDownloaderAsync)
    (consulta : string) (cantidad : Z) (w : World)
    (datos : json) (good : list json) (bad : json) (rest urls : list json) (e : exn) :
  session_ready env →
  api env URL_BASE (parametros self consulta cantidad) = Response 200 (Ok datos) →
  getitem datos "hits" = Ok (JArr (good ++ bad :: rest)) →
  Forall2 (λ imagen url, getitem imagen "largeImageURL" = Ok url) good urls →
  getitem bad "largeImageURL" = Raise e →
  (e = KeyError "largeImageURL" ∨ e = TypeError) ∧
  ∃ w', obtener_urls_imagenes env self consulta cantidad w = (Raise e, w') ∧
        stdout w' = stdout w ∧ files w' = files w ∧
        ∀ sched,
          descargar_imagenes_concurrentes env sched self consulta cantidad w
          = Some (Raise e, w').
Proof.
  intros Hssl Hapi Hhits Hgood Hbad. split.
  { unfold getitem in Hbad.
    destruct bad; try (injection Hbad as <-; by right).
    destruct (obj_lookup "largeImageURL" members); [done|].
    injection Hbad as <-. by left. }
  pose proof (obtener_urls_imagenes_unfold env self consulta cantidad w Hssl) as Hres.
  rewrite Hapi, bool_decide_true in Hres by done.
  unfold mbind at 1, M_bind at 1, lift at 1 in Hres.
  unfold mbind at 1, M_bind at 1, lift at 1 in Hres. rewrite Hhits in Hres.
  unfold mbind at 1, M_bind at 1, lift at 1 in Hres. simpl in Hres.
  rewrite (mapM_lift_failure _ good urls bad rest e _ Hgood Hbad) in Hres.
  eexists. split; [exact Hres|]. split; [done|]. split; [done|].
  intros sched. unfold descargar_imagenes_concurrentes. by rewrite Hres.
Qed.

Lemma resolver_bad_hit_witness :
  (obtener_urls_imagenes env_api_bad_hit demo_self "gatos" 3 demo_world).1
  = Raise (KeyError "largeImageURL").
Proof.
  destruct (resolver_bad_hit env_api_bad_hit demo_self "gatos" 3 demo_world
              (JObj [("hits", JArr [hit "https://cdn/a.jpg"; JObj [("id", JInt 8)];
                                    hit "https://cdn/c.jpg"])])
              [hit "https://cdn/a.jpg"] (JObj [("id", JInt 8)])
              [hit "https://cdn/c.jpg"] [JStr "https://cdn/a.jpg"]
              (KeyError "largeImageURL")) as (_ & w' & Hres & _).
  - reflexivity.
  - reflexivity.
  - reflexivity.
  - repeat constructor.
  - reflexivity.
  - by rewrite Hres.
Defined.

Lemma resolver_200_result (env : Env) (self : PixabayDownloaderAsync)
    (consulta : string) (cantidad : Z) (w : World) (datos : json) :
  session_ready env →
  api env URL_BASE (parametros self consulta cantidad) = Response 200 (Ok datos) →
  (obtener_urls_imagenes env self consulta cantidad w).1
  = match getitem datos "hits" with
    | Raise e => Raise e
    | Ok hits =>
        match iter hits with
        | Raise e => Raise e
        | Ok imagenes =>
            (mapM (λ imagen, lift (getitem imagen "largeImageURL")) imagenes w).1
        end
    end.
Proof.
  intros Hssl Hapi.
  rewrite (obtener_urls_imagenes_unfold env self consulta cantidad w Hssl).
  rewrite Hapi, bool_decide_true by done.
  unfold mbind at 1, M_bind at 1, lift at 1.
  unfold mbind at 1, M_bind at 1, lift at 1.
  destruct (getitem datos "hits") as [hits|e]; [|done].
  unfold mbind at 1, M_bind at 1, lift at 1.
  destruct (iter hits) as [imagenes|e]; [|done].
  set (w2 := record_net _ _).
  destruct (mapM_lift (λ imagen, getitem imagen "largeImageURL") imagenes w2) as [_ H2].
  destruct (mapM_lift (λ imagen, getitem imagen "largeImageURL") imagenes w) as [_ H1].
  destruct (mapM _ imagenes w2) as [[ys|e] w3] eqn:Hm2; simpl in *.
  - symmetry. apply H1. by apply H2.
  - destruct (mapM _ imagenes w) as [[ys|e'] w4] eqn:Hm1; simpl in *.
    + assert (Raise e = Ok ys) as Habs by (apply H2; by apply H1). done.
    + clear H1 H2. revert w w2 w3 w4 e e' Hm1 Hm2.
      induction imagenes as [|x l IH]; intros w w2 w3 w4 e e' Hm1 Hm2; simpl in *.
      * done.
      * unfold mbind at 1, M_bind at 1, lift at 1 in Hm1.
        unfold mbind at 1, M_bind at 1, lift at 1 in Hm2.
        destruct (getitem x "largeImageURL") as [y|ex]; [|congruence].
        unfold mbind at 1, M_bind at 1 in Hm1. unfold mbind at 1, M_bind at 1 in Hm2.
        destruct (mapM _ l w) as [[ys1|e1] w5] eqn:H5; [done|].
        destruct (mapM _ l w2) as [[ys2|e2] w6] eqn:H6; [done|].
        injection Hm1 as <- _. injection Hm2 as <- _. by eapply IH.
Qed.

(** X9: a 200 response whose JSON is not of the expected shape.  A body
    that is not an object raises [TypeError]; an object without [hits]
    raises [KeyError('hits')]; a [hits] that is null, a boolean or a
    number raises [TypeError], and so does a non-empty string or object
    (its characters or keys are not objects); an empty string or object
    passes for an empty list. *)
Theorem resolver_unexpected_body (env : Env) (self : PixabayDownloaderAsync)
    (consulta : string) (cantidad : Z) (w : World) (datos : json) :
  session_ready env →
  api env URL_BASE (parametros self consulta cantidad) = Response 200 (Ok datos) →
  match datos with
  | JObj members =>
      match obj_lookup "hits" members with
      | None =>
          (obtener_urls_imagenes env self consulta cantidad w).1 = Raise (KeyError "hits")
      | Some (JNull | JBool _ | JInt _ | JFloat _)
      | Some (JStr (String _ _)) | Some (JObj (_ :: _)) =>
          (obtener_urls_imagenes env self consulta cantidad w).1 = Raise TypeError
      | Some (JStr EmptyString) | Some (JObj []) =>
          (obtener_urls_imagenes env self consulta cantidad w).1 = Ok []
      | Some (JArr _) => True
      end
  | _ => (obtener_urls_imagenes env self consulta cantidad w).1 = Raise TypeError
  end.
Proof.
  intros Hssl Hapi.
  pose proof (resolver_200_result env self consulta cantidad w datos Hssl Hapi) as Hres.
  destruct datos as [| | | | | |members]; try done.
  simpl in Hres.
  destruct (obj_lookup "hits" members) as [hits|]; [|done].
  destruct hits as [| | | |s|items|kvs]; try done.
  - destruct s as [|c s]; done.
  - destruct kvs as [|[k v] kvs]; done.
Qed.

Lemma resolver_unexpected_body_witness :
  (obtener_urls_imagenes env_api_no_hits_key demo_self "gatos" 3 demo_world).1
  = Raise (KeyError "hits")
  ∧ (obtener_urls_imagenes env_api_list_body demo_self "gatos" 3 demo_world).1
    = Raise TypeError.
Proof.
  split.
  - exact (resolver_unexpected_body env_api_no_hits_key demo_self "gatos" 3 demo_world
             (JObj [("total", JInt 0)]) eq_refl eq_refl).
  - exact (resolver_unexpected_body env_api_list_body demo_self "gatos" 3 demo_world
             (JArr []) eq_refl eq_refl).
Defined.

(** ** The coroutine *)

Lemma descargar_imagen_200 (env : Env) (self : PixabayDownloaderAsync)
    (i : nat) (url : json) (nombre_archivo : string) (w : World) (c : list Byte.byte) :
  media env i url = Response 200 (Ok c) →
  descargar_imagen env self i url nombre_archivo w
  = match (open_wb (os_path_join (directorio_imagenes self) nombre_archivo);;
           write (os_path_join (directorio_imagenes self) nombre_archivo) c)
            (record_net (HttpGet url []) w) with
    | (Ok _, w2) => (Ok (), emit ("Descarga completada: " +:+ nombre_archivo) w2)
    | (Raise e, w2) => (Raise e, w2)
    end.
Proof.
  intros Hm. unfold descargar_imagen, mbind, M_bind, trace, lift, print.
  rewrite Hm. simpl.
  destruct (open_wb _ _) as [[[]|e] w1]; simpl; [|done].
  destruct (write _ c w1) as [[[]|e] w2]; done.
Qed.

(** X10: what one call of [descargar_imagen] does.  Without a response, or
    with a body that cannot be read, it raises that exception and leaves
    the world as it was, but for the request it sent.  With a body and a
    file that can be written it returns, prints the line of success, and
    the file then holds the body, whatever was there before; no other
    file changes.  With a file that cannot be written it raises and prints
    nothing. *)
Theorem descargar_imagen_outcomes (env : Env) (self : PixabayDownloaderAsync)
    (i : nat) (url : json) (nombre_archivo : string) (w : World) :
  (∀ e, media env i url = NoResponse e ∨ media env i url = Response 200 (Raise e) →
     descargar_imagen env self i url nombre_archivo w
     = (Raise e, record_net (HttpGet url []) w)) ∧
  (∀ c, media env i url = Response 200 (Ok c) →
     writable w (os_path_join (directorio_imagenes self) nombre_archivo) c = true →
     ∃ w', descargar_imagen env self i url nombre_archivo w = (Ok (), w') ∧
           files w' = <[os_path_join (directorio_imagenes self) nombre_archivo := c]>
                        (files w) ∧
           stdout w' = stdout w ++ ["Descarga completada: " +:+ nombre_archivo] ∧
           net w' = net w ++ [HttpGet url []] ∧ dirs w' = dirs w) ∧
  (∀ c, media env i url = Response 200 (Ok c) →
     writable w (os_path_join (directorio_imagenes self) nombre_archivo) c = false →
     ∃ e w', descargar_imagen env self i url nombre_archivo w = (Raise e, w') ∧
             stdout w' = stdout w).
Proof.
  set (ruta := os_path_join (directorio_imagenes self) nombre_archivo).
  set (w1 := record_net (HttpGet url []) w).
  assert (∀ c, writable w1 ruta c = writable w ruta c) as Hsame.
  { intros c. by apply writable_static. }
  split_and!.
  - intros e Hm. unfold descargar_imagen, mbind, M_bind, trace, raise, lift.
    by destruct Hm as [-> | ->].
  - intros c Hm Hw. rewrite <-Hsame in Hw.
    apply writable_spec in Hw as [w2 Hw2].
    destruct (open_write_frame _ _ _ _ _ Hw2) as (Hd & _ & _ & Ho & Hn & Hother & Hc).
    exists (emit ("Descarga completada: " +:+ nombre_archivo) w2). split_and!.
    + rewrite (descargar_imagen_200 env self i url nombre_archivo w c Hm).
      fold ruta. fold w1. by rewrite Hw2.
    + simpl. apply map_eq. intros p.
      destruct (decide (p = ruta)) as [->|Hne].
      * rewrite lookup_insert_eq. by apply Hc.
      * rewrite lookup_insert_ne by done. by rewrite Hother.
    + simpl. by rewrite Ho.
    + simpl. by rewrite Hn.
    + simpl. by rewrite Hd.
  - intros c Hm Hw. rewrite <-Hsame in Hw.
    unfold writable in Hw.
    destruct ((open_wb ruta;; write ruta c) w1) as [[[]|e] w2] eqn:Hw2; [done|].
    destruct (open_write_frame _ _ _ _ _ Hw2) as (_ & _ & _ & Ho & _).
    exists e, w2. split; [|done].
    rewrite (descargar_imagen_200 env self i url nombre_archivo w c Hm).
    fold ruta. fold w1. by rewrite Hw2.
Qed.

Lemma descargar_imagen_outcomes_witness :
  ∃ w', descargar_imagen env_all_ok demo_self 0 (JStr "https://cdn/a.jpg")
          "imagen_1.jpg" world_old_image = (Ok (), w') ∧
        files w' !! "imagenes_descargadas/imagen_1.jpg" = Some jpeg.
Proof.
  destruct (descargar_imagen_outcomes env_all_ok demo_self 0 (JStr "https://cdn/a.jpg")
              "imagen_1.jpg" world_old_image) as (_ & Hok & _).
  destruct (Hok jpeg) as (w' & Hrun & Hf & _).
  - reflexivity.
  - vm_compute. reflexivity.
  - exists w'. split; [exact Hrun|]. rewrite Hf. reflexivity.
Defined.

(** ** The constructor and the method *)

(** X11: [exist_ok] forgives a directory, not a file.  When the name of
    the output directory is taken by a regular file, the constructor
    raises [FileExistsError] and changes nothing, and [main] ends there,
    without a request. *)
Theorem constructor_refuses_a_file (k d : string) (w : World) :
  d ≠ "" →
  isfile (norm d) w = true → isdir d w = false →
  dirname (norm d) = "" ∨ exists_path (dirname (norm d)) w = true →
  __init__ k d w = (Raise FileExistsError, w) ∧
  (d = "imagenes_descargadas" →
   ∀ env sched, main env sched w = Some (Raise FileExistsError, w)).
Proof.
  intros Hne Hfile Hdir Hparent.
  assert (∀ k', __init__ k' d w = (Raise FileExistsError, w)) as Hinit.
  { intros k'. unfold __init__, mbind, M_bind, makedirs.
    assert (mkdir d w = (Raise FileExistsError, w)) as Hmk.
    { unfold mkdir. rewrite bool_decide_false by done. by rewrite Hdir, Hfile. }
    destruct (String.length d) as [|n] eqn:Hlen; simpl.
    - by rewrite Hmk, Hdir.
    - assert (bool_decide (dirname (norm d) ≠ "") && negb (bool_decide (norm d = "/"))
              && negb (exists_path (dirname (norm d)) w) = false) as ->.
      { destruct Hparent as [Hp|Hp].
        - rewrite (bool_decide_false (dirname (norm d) ≠ "")); [done|]. by intros ?.
        - rewrite Hp. simpl. by rewrite andb_false_r. }
      by rewrite Hmk, Hdir. }
  split; [apply Hinit|].
  intros -> env sched. unfold main. by rewrite Hinit.
Qed.

Lemma constructor_refuses_a_file_witness :
  main env_all_ok (round_robin 2) world_dir_is_file
  = Some (Raise FileExistsError, world_dir_is_file).
Proof.
  destruct (constructor_refuses_a_file "clave" "imagenes_descargadas" world_dir_is_file)
    as [_ Hmain].
  - discriminate.
  - vm_compute. reflexivity.
  - vm_compute. reflexivity.
  - left. vm_compute. reflexivity.
  - exact (Hmain eq_refl env_all_ok (round_robin 2)).
Defined.

(** X12: the method asks the API first and downloads afterwards: its
    requests are the one of the resolver, then, if the resolver returned a
    non-empty list, those of a second session, at most one per position of
    that list; after an empty list or an exception of the resolver nothing
    more is sent. *)
Theorem method_requests_in_order (env : Env) (sched : list nat)
    (self : PixabayDownloaderAsync) (consulta : string) (cantidad : Z)
    (w : World) (r : result unit) (w' : World) :
  session_ready env →
  descargar_imagenes_concurrentes env sched self consulta cantidad w = Some (r, w') →
  ∃ rest,
    net w' = net w ++ [SessionOpened;
                       HttpGet (JStr URL_BASE) (parametros self consulta cantidad)]
                   ++ rest ∧
    match (obtener_urls_imagenes env self consulta cantidad w).1 with
    | Raise _ | Ok [] => rest = []
    | Ok urls =>
        ∃ order, NoDup order ∧ (∀ i, i ∈ order → i < length urls) ∧
                 rest = SessionOpened :: map (request_of urls) order
    end.
Proof.
  intros Hssl. unfold descargar_imagenes_concurrentes.
  destruct (obtener_urls_imagenes env self consulta cantidad w) as [res w1] eqn:Hres.
  destruct (resolver_trace env self consulta cantidad w res w1 Hres)
    as (_ & _ & Hnet).
  unfold session_ready in Hssl. rewrite Hssl in Hnet. destruct Hnet as [Hnet _].
  simpl. destruct res as [urls|e].
  - destruct urls as [|u us].
    + intros [= <- <-]. exists []. split; [|done]. simpl. by rewrite Hnet.
    + intros Hrun.
      destruct (fetch_stage_requests env self (u :: us) sched w1 r w')
        as (order & Hnd & Hlt & Hnet' & _); [done|done|done|].
      exists (SessionOpened :: map (request_of (u :: us)) order). split.
      * rewrite Hnet', Hnet. by rewrite <-app_assoc.
      * exists order. done.
  - intros [= <- <-]. exists []. split; [|done]. simpl. by rewrite Hnet.
Qed.

Lemma method_requests_in_order_witness :
  ∃ r w', descargar_imagenes_concurrentes env_all_ok [1; 0; 0; 1; 0; 1] demo_self "gatos" 5 demo_world
          = Some (r, w') ∧
          net w' = [SessionOpened;
                    HttpGet (JStr URL_BASE) (parametros demo_self "gatos" 5);
                    SessionOpened;
                    HttpGet (JStr "https://cdn/b.jpg") [];
                    HttpGet (JStr "https://cdn/a.jpg") []].
Proof.
  destruct (descargar_imagenes_concurrentes env_all_ok [1; 0; 0; 1; 0; 1] demo_self "gatos" 5 demo_world)
    as [[r w']|] eqn:Hrun.
  - destruct (method_requests_in_order env_all_ok [1; 0; 0; 1; 0; 1] demo_self "gatos" 5 demo_world
                r w' eq_refl Hrun) as (rest & _ & _).
    exists r, w'. split; [reflexivity|].
    vm_compute in Hrun. injection Hrun as <- <-. reflexivity.
  - vm_compute in Hrun. discriminate.
Defined.

(** ** The output directory at download time *)

Lemma list_ascii_of_string_app (a b : string) :
  String.list_ascii_of_string (a +:+ b)
  = String.list_ascii_of_string a ++ String.list_ascii_of_string b.
Proof.
  induction a as [|x a IH]; [done|].
  rewrite append_cons. simpl. by rewrite IH.
Qed.

Lemma pretty_N_char_no_slash (x : N) : is_slash (pretty_N_char x) = false.
Proof. unfold pretty_N_char. by repeat case_match. Qed.

Lemma pretty_N_go_no_slash (x : N) (s : string) :
  Forall (λ c, is_slash c = false) (String.list_ascii_of_string s) →
  Forall (λ c, is_slash c = false) (String.list_ascii_of_string (pretty_N_go x s)).
Proof.
  revert s. induction (N.lt_wf_0 x) as [x _ IH]. intros s Hs.
  destruct (decide (x = 0)%N) as [->|Hx].
  - by rewrite pretty_N_go_0.
  - rewrite pretty_N_go_step by lia. apply IH.
    + apply N.div_lt; lia.
    + simpl. constructor; [apply pretty_N_char_no_slash|done].
Qed.

Lemma nombre_no_slash (i : nat) :
  Forall (λ c, is_slash c = false) (String.list_ascii_of_string (nombre i)).
Proof.
  unfold nombre. rewrite !list_ascii_of_string_app.
  apply Forall_app. split; [by repeat constructor|].
  apply Forall_app. split; [|by repeat constructor].
  unfold pretty, pretty_nat, pretty, pretty_N.
  case_decide; [by repeat constructor|].
  by apply pretty_N_go_no_slash.
Qed.

Lemma drop_to_slash_app (l1 l2 : list ascii) :
  Forall (λ c, is_slash c = false) l1 → drop_to_slash (l1 ++ l2) = drop_to_slash l2.
Proof. induction 1 as [|c l1 Hc _ IH]; simpl; [done|by rewrite Hc]. Qed.

Lemma ends_with_slash_reverse (d : string) :
  ends_with_slash d = true →
  ∃ l, reverse (String.list_ascii_of_string d) = slash :: l.
Proof.
  induction d as [|c rest IH]; [done|]. simpl.
  destruct rest as [|c' rest'].
  - intros Hc. apply bool_decide_eq_true in Hc as ->. by exists [].
  - intros Hrest. destruct (IH Hrest) as [l Hl].
    exists (l ++ [c]). rewrite reverse_cons.
    change (String.list_ascii_of_string (String c' rest'))
      with (c' :: String.list_ascii_of_string rest') in *.
    by rewrite Hl.
Qed.

Lemma norm_nonempty (d : string) : d ≠ "" → norm d ≠ "".
Proof.
  intros Hd. unfold norm.
  destruct (lstrip_slashes (reverse (String.list_ascii_of_string d))) as [|c l] eqn:Hl.
  - by rewrite bool_decide_false.
  - intros Heq. apply (f_equal String.length) in Heq.
    rewrite length_string_of_list_ascii, length_reverse in Heq. done.
Qed.

Lemma norm_idemp (d : string) : norm (norm d) = norm d.
Proof.
  assert (norm d = match lstrip_slashes (reverse (String.list_ascii_of_string d)) with
                   | [] => if bool_decide (d = "") then "" else "/"
                   | l => String.string_of_list_ascii (reverse l)
                   end) as Hn by reflexivity.
  destruct (lstrip_slashes (reverse (String.list_ascii_of_string d))) as [|c l] eqn:Hl;
    rewrite Hn.
  - case_bool_decide; reflexivity.
  - unfold norm.
    rewrite String.list_ascii_of_string_of_list_ascii, reverse_involutive.
    simpl. by rewrite (lstrip_slashes_head _ _ _ Hl).
Qed.

Lemma isdir_norm (d : string) (w : World) : d ≠ "" → isdir (norm d) w = isdir d w.
Proof.
  intros Hd. unfold isdir. rewrite norm_idemp.
  by rewrite (bool_decide_true (norm d ≠ "")), (bool_decide_true (d ≠ ""))
    by (try apply norm_nonempty; done).
Qed.

(** The files of the images lie in the output directory. *)
Lemma dirname_ruta (self : PixabayDownloaderAsync) (i : nat) :
  directorio_imagenes self ≠ "" → norm (directorio_imagenes self) ≠ "/" →
  dirname (ruta self i) = norm (directorio_imagenes self).
Proof.
  set (d := directorio_imagenes self). intros Hd Hroot.
  assert (∃ head, drop_to_slash (reverse (String.list_ascii_of_string (ruta self i)))
                  = head ∧
                  lstrip_slashes head
                  = lstrip_slashes (reverse (String.list_ascii_of_string d)) ∧
                  head ≠ []) as (head & Hhead & Hstrip & Hne).
  { unfold ruta, os_path_join. fold d. rewrite nombre_relative.
    pose proof (nombre_no_slash i) as Hname.
    apply Forall_reverse in Hname.
    destruct (bool_decide (d = "") || ends_with_slash d) eqn:Hends.
    - rewrite bool_decide_false in Hends by done. simpl in Hends.
      destruct (ends_with_slash_reverse d Hends) as [l Hl].
      exists (slash :: l).
      rewrite list_ascii_of_string_app, reverse_app, drop_to_slash_app by done.
      rewrite Hl. done.
    - exists (slash :: reverse (String.list_ascii_of_string d)).
      rewrite !list_ascii_of_string_app, !reverse_app, <-app_assoc.
      rewrite drop_to_slash_app by done. done. }
  unfold dirname, norm. rewrite Hhead, Hstrip.
  destruct (lstrip_slashes (reverse (String.list_ascii_of_string d))) as [|c l] eqn:Hl;
    [|done].
  exfalso. apply Hroot. unfold norm. fold d. rewrite Hl. by rewrite bool_decide_false.
Qed.

(** X13: the output directory is made by the constructor only.  When it
    is not there as the download stage runs (it was removed in between),
    no image file can be written, the stage does not make the directory
    again, and the first image answered with a body ends the batch with an
    exception. *)
Theorem missing_directory_fails (env : Env) (self : PixabayDownloaderAsync)
    (urls : list json) (w : World) :
  directorio_imagenes self ≠ "" → norm (directorio_imagenes self) ≠ "/" →
  isdir (directorio_imagenes self) w = false →
  (∀ j c, writable w (ruta self j) c = false) ∧
  (∀ sched r w', fetch_stage env self sched urls w = Some (r, w') →
     isdir (directorio_imagenes self) w' = false) ∧
  (∀ i url c, urls !! i = Some url → media env i url = Response 200 (Ok c) →
     (∀ sched r w', fetch_stage env self sched urls w = Some (r, w') → ∃ e, r = Raise e) ∧
     (∀ sched, complete (length urls) sched →
        ∃ e w', fetch_stage env self sched urls w = Some (Raise e, w'))).
Proof.
  intros Hd Hroot Hdir.
  assert (∀ j c, writable w (ruta self j) c = false) as Hw.
  { intros j c. unfold writable, mbind, M_bind, open_wb.
    case_bool_decide; [done|].
    destruct (isdir (ruta self j) w); [done|].
    unfold parent_check. rewrite dirname_ruta by done.
    rewrite bool_decide_false by (by apply norm_nonempty).
    rewrite isdir_norm, Hdir by done.
    by destruct (isfile _ w). }
  split; [done|]. split.
  - intros sched r w' Hrun.
    destruct (fetch_stage_frame env self urls sched w r w' Hrun) as [Hdirs _].
    unfold isdir in *. by rewrite Hdirs.
  - intros i url c Hi Hm.
    assert (crashes env self w i url) as Hcr.
    { unfold crashes. rewrite Hm. split; [done|apply Hw]. }
    split.
    + intros sched r w'. by apply fetch_stage_crash with i url.
    + intros sched Hc.
      destruct (fetch_stage_complete env self urls sched w Hc) as (r & w' & Hrun).
      destruct (fetch_stage_crash env self urls sched w r w' i url Hi Hcr Hrun) as [e ->].
      eauto.
Qed.

Lemma missing_directory_fails_witness :
  ∃ e w', fetch_stage env_all_ok demo_self (round_robin 2) two_urls world_empty
          = Some (Raise e, w').
Proof.
  destruct (missing_directory_fails env_all_ok demo_self two_urls world_empty)
    as (_ & _ & Hraise).
  - discriminate.
  - vm_compute. discriminate.
  - vm_compute. reflexivity.
  - destruct (Hraise 0 (JStr "https://cdn/a.jpg") jpeg eq_refl eq_refl) as [_ Hall].
    apply Hall. apply round_robin_complete.
Defined.

(** ** The end of a batch *)

(** X14: a batch comes to an end, and how it ends is not a matter of the
    schedule.  Three turns are all a download needs and no download waits
    for another: under every schedule that gives each task three turns the
    stage has returned or raised; it has returned if no task can fail, and
    raised if one can. *)
Theorem fetch_stage_terminates (env : Env) (self : PixabayDownloaderAsync)
    (urls : list json) (sched : list nat) (w : World) :
  session_ready env →
  complete (length urls) sched →
  ∃ r w', fetch_stage env self sched urls w = Some (r, w') ∧
    ((∀ i url, urls !! i = Some url → ¬ crashes env self w i url) → r = Ok ()) ∧
    (∀ i url, urls !! i = Some url → crashes env self w i url → ∃ e, r = Raise e).
Proof.
  intros Hssl Hc.
  destruct (fetch_stage_complete env self urls sched w Hc) as (r & w' & Hrun).
  exists r, w'. split; [done|]. split.
  - intros Hok. by eapply fetch_stage_no_crash.
  - intros i url Hi Hcr. by eapply fetch_stage_crash.
Qed.

Lemma fetch_stage_terminates_witness :
  ∃ w', fetch_stage env_second_404 demo_self (round_robin 2) two_urls demo_world
        = Some (Ok (), w').
Proof.
  destruct (fetch_stage_terminates env_second_404 demo_self two_urls (round_robin 2)
              demo_world) as (r & w' & Hrun & Hok & _).
  - reflexivity.
  - apply round_robin_complete.
  - exists w'. rewrite Hrun. rewrite Hok; [reflexivity|].
    intros [|[|i]] url [= <-]; vm_compute; intros [_ H]; discriminate.
Defined.
